(** * PDF merge engine (MergeFiles, copyReferencedObjects, mergePageTrees)

    A shallow embedding of the merge code that lives in
    [src/dbcsv/read.go] (package [pdf], lines 347-548), together with the
    properties of the graph copy engine, the page-tree merger and the
    merge orchestrator.

    Conventions of the embedding:
    - a Go [map[pdf.ObjectReference]pdf.ObjectReference] is a [gmap];
    - a [pdf.Dictionary] (a Go map from names to objects) is an
      association list whose order is the order in which [range] visits
      the entries; keys are kept verbatim by every operation;
    - a Go function returning [(T, error)] returns a [result T]; a failed
      type assertion [x.(T)] is the run-time panic of Go, kept apart from
      returned errors;
    - the recursion of [copyReferencedObjects] follows references of the
      source document, so it is written with a step budget; the budget is
      shown to be an artefact (a computable bound always suffices);
    - dictionaries and arrays are Go reference values, and the copy
      engine overwrites their entries in place; the embedding returns the
      updated value instead, which is the same as long as no slot of the
      source is read twice in one pass, and none is (once read, its
      reference is in the table). *)

From stdpp Require Import base option list strings gmap fin_maps fin_sets pretty.
From Stdlib Require Import ZArith Lia Ascii.

Open Scope Z_scope.
Open Scope string_scope.
Open Scope list_scope.

(** ** Outcomes of Go calls *)

Inductive result (A : Type) : Type :=
| Ok (a : A)
| Err (e : string)
| Panic (msg : string).
Arguments Ok {A} a.
Arguments Err {A} e.
Arguments Panic {A} msg.

Definition rbind {A B : Type} (m : result A) (k : A → result B) : result B :=
  match m with
  | Ok a => k a
  | Err e => Err e
  | Panic msg => Panic msg
  end.

(** A computation that may also exhaust its step budget ([None]). *)
Definition fbind {A B : Type} (m : option (result A))
    (k : A → option (result B)) : option (result B) :=
  match m with
  | None => None
  | Some (Ok a) => k a
  | Some (Err e) => Some (Err e)
  | Some (Panic msg) => Some (Panic msg)
  end.

Arguments rbind : simpl never.
Arguments fbind : simpl never.

(** [try! p := m in k] sequences Go calls, an error or a panic ends the
    function; [run! p := m in k] does the same under a step budget. *)
Notation "'try!' p := m 'in' k" := (rbind m (λ p, k))
  (at level 10, p pattern, m at level 100, k at level 200, only parsing).
Notation "'run!' p := m 'in' k" := (fbind m (λ p, k))
  (at level 10, p pattern, m at level 100, k at level 200, only parsing).

(** ** The object model and the document handle *)

Module pdf.

(** The object model and the document handle come from the package
    [github.com/nathankerr/pdf], which the merge code imports and which
    is not part of the sources.  They follow sections 2, 3 and 6 of the
    specification. *)

(** Modelled from the spec: the type [pdf.ObjectReference], "an opaque
    identity (numeric id + generation)"; two references are equal iff
    both numbers are. *)
Record ObjectReference : Type := mkRef {
  ObjectNumber : N;
  GenerationNumber : N
}.

#[export] Instance ObjectReference_eq_dec : EqDecision ObjectReference.
Proof. solve_decision. Defined.

#[export] Instance ObjectReference_countable : Countable ObjectReference.
Proof.
  refine (inj_countable' (λ r, (ObjectNumber r, GenerationNumber r))
                         (λ p, mkRef p.1 p.2) _).
  by intros [].
Defined.

#[local] Set Warnings "-register-all".

(** Modelled from the spec: the interface [pdf.Object] and the kinds of
    section 3, with [IndirectObject], which the code passes to [Add].
    [Integer] is a Go integer (the code converts the constant [0] to it
    and accumulates with [+=]); [Real] is a [float64], of which only the
    bit pattern is carried, no claim computes with it. *)
Inductive Object : Type :=
| Null
| Name (n : string)
| Integer (i : Z)
| Real (bits : Z)
| String (s : string)
| Dictionary (d : list (string * Object))
| Array (a : list Object)
| Stream (d : list (string * Object)) (payload : list Byte.byte)
| Ref (r : ObjectReference)
| IndirectObject (r : ObjectReference) (o : Object).

(** What the verb [%T] prints for a value of each kind. *)
Definition typeName (o : Object) : string :=
  match o with
  | Null => "pdf.Null"
  | Name _ => "pdf.Name"
  | Integer _ => "pdf.Integer"
  | Real _ => "pdf.Real"
  | String _ => "pdf.String"
  | Dictionary _ => "pdf.Dictionary"
  | Array _ => "pdf.Array"
  | Stream _ _ => "pdf.Stream"
  | Ref _ => "pdf.ObjectReference"
  | IndirectObject _ _ => "pdf.IndirectObject"
  end.

(** Modelled from the spec: the type [pdf.File], a document: the
    addressable slots and the distinguished [Root] reference. *)
Record File : Type := mkFile {
  objects : gmap ObjectReference Object;
  Root : ObjectReference
}.

Definition emptyFile : File := mkFile ∅ (mkRef 0 0).

(** Modelled from the spec: the method [Get], the object a reference
    denotes; [Null] for a slot that holds nothing. *)
Definition Get (f : File) (r : ObjectReference) : Object :=
  default Null (objects f !! r).

(** Modelled from the spec: the "fresh reference" that [Add] allocates,
    taken as generation 0 of the object number after the largest one in
    use. *)
Definition maxObjectNumber (m : gmap ObjectReference Object) : N :=
  map_fold (λ r _ acc, N.max (ObjectNumber r) acc) 0%N m.

Definition freshRef (f : File) : ObjectReference :=
  mkRef (N.succ (maxObjectNumber (objects f))) 0.

Definition setRoot (f : File) (r : ObjectReference) : File :=
  mkFile (objects f) r.

Definition store (f : File) (r : ObjectReference) (o : Object) : File :=
  mkFile (<[r := o]> (objects f)) (Root f).

End pdf.

Import pdf.

(** ** External collaborators *)

(** Modelled from the spec: the fallible operations of the document
    handle.  Which calls fail is decided by the environment:
    [addErr f o] is the error of [f.Add(o)] if it fails, [pdfOpen] and
    [pdfCreate] are [pdf.Open] and [pdf.Create], and [saveErr f] is the
    error of [f.Save()]. *)
Class Collaborators : Type := {
  addErr : File → Object → option string;
  pdfOpen : string → result File;
  pdfCreate : string → result File;
  saveErr : File → option string
}.

(** Modelled from the spec: the method [Add], which "allocates a fresh
    reference, or overwrites the slot named by an IndirectObject's
    reference", and returns the reference of the slot it wrote. *)
Definition Add `{Collaborators} (f : File) (obj : Object)
    : result (File * ObjectReference) :=
  match addErr f obj with
  | Some e => Err e
  | None =>
      match obj with
      | IndirectObject r o => Ok (store f r o, r)
      | _ => let r := freshRef f in Ok (store f r obj, r)
      end
  end.

(** ** Dictionaries

    [d[k]] and [d[k] = v] on a Go map.  A missing key reads as the nil
    interface ([None]); an assignment overwrites the entry of an existing
    key and adds one otherwise. *)
Fixpoint dictGet (d : list (string * Object)) (k : string) : option Object :=
  match d with
  | [] => None
  | (k', v) :: d' => if decide (k' = k) then Some v else dictGet d' k
  end.

Fixpoint dictSet (d : list (string * Object)) (k : string) (v : Object)
    : list (string * Object) :=
  match d with
  | [] => [(k, v)]
  | (k', v') :: d' =>
      if decide (k' = k) then (k, v) :: d' else (k', v') :: dictSet d' k v
  end.

(** ** Go [int] arithmetic *)

(** [pdf.Integer] is declared in the absent package.  The code converts
    the constant [0] to it and accumulates with [+=], so it is one of
    Go's fixed-width integer types; it is taken to be [int], 64 bits
    wide, on which [+=] wraps around in two's complement. *)
Definition intBits : Z := 64.

Definition wrapInt (x : Z) : Z :=
  (x + 2 ^ (intBits - 1)) mod 2 ^ intBits - 2 ^ (intBits - 1).

Definition intAdd (a b : Z) : Z := wrapInt (a + b).

(** ** The graph copy engine *)

(** The closure [merge] of [copyReferencedObjects]: every entry of
    [newRefs] is assigned into [refs]. *)
Definition merge (refs newRefs : gmap ObjectReference ObjectReference)
    : gmap ObjectReference ObjectReference :=
  newRefs ∪ refs.

Definition unhandled (obj : Object) : string := "unhandled " +:+ typeName obj.

Section copy_loops.
Context (copy : gmap ObjectReference ObjectReference → File → Object →
                option (result (gmap ObjectReference ObjectReference
                                * File * Object))).

(** [for k, v := range t { newRefs, t[k], err = copy(refs, dst, src, v);
    ...; merge(newRefs) }].  The table is one shared Go map: after the
    call the caller's [refs] is the table the callee returns. *)
Fixpoint copyEntries (refs : gmap ObjectReference ObjectReference)
    (dst : File) (t : list (string * Object))
    : option (result (gmap ObjectReference ObjectReference
                      * File * list (string * Object))) :=
  match t with
  | [] => Some (Ok (refs, dst, []))
  | (k, v) :: t' =>
      run! (newRefs, dst1, v') := copy refs dst v in
      let refs1 := merge newRefs newRefs in
      run! (refs2, dst2, t'') := copyEntries refs1 dst1 t' in
      Some (Ok (refs2, dst2, (k, v') :: t''))
  end.

(** [for i, v := range t { newRefs, t[i], err = copy(...); ... }] *)
Fixpoint copyElements (refs : gmap ObjectReference ObjectReference)
    (dst : File) (t : list Object)
    : option (result (gmap ObjectReference ObjectReference
                      * File * list Object)) :=
  match t with
  | [] => Some (Ok (refs, dst, []))
  | v :: t' =>
      run! (newRefs, dst1, v') := copy refs dst v in
      let refs1 := merge newRefs newRefs in
      run! (refs2, dst2, t'') := copyElements refs1 dst1 t' in
      Some (Ok (refs2, dst2, v' :: t''))
  end.
End copy_loops.

(** [copyReferencedObjects(refs, dst, src, obj)].  [budget] bounds the
    depth of the recursion; the cases that return without a recursive
    call do not look at it. *)
Fixpoint copyReferencedObjects `{Collaborators} (budget : nat)
    (refs : gmap ObjectReference ObjectReference) (dst src : File)
    (obj : Object) {struct budget}
    : option (result (gmap ObjectReference ObjectReference * File * Object)) :=
  match obj with
  | Ref t =>
      match refs !! t with
      | Some r => Some (Ok (refs, dst, Ref r))
      | None =>
          match budget with
          | O => None
          | S budget' =>
              (* get an object reference for the copied obj *)
              run! (dst1, ref) := Some (Add dst Null) in
              let refs1 := <[t := ref]> refs in
              run! (newRefs, dst2, newObj) :=
                copyReferencedObjects budget' refs1 dst1 src (Get src t) in
              let refs2 := merge newRefs newRefs in
              (* now actually add the object to dst *)
              run! (dst3, ref') := Some (Add dst2 (IndirectObject ref newObj)) in
              let refs3 := <[t := ref']> refs2 in
              Some (Ok (refs3, dst3, Ref ref'))
          end
      end
  | Dictionary t =>
      match budget with
      | O => None
      | S budget' =>
          run! (refs', dst', t') :=
            copyEntries (λ r d v, copyReferencedObjects budget' r d src v)
                        refs dst t in
          Some (Ok (refs', dst', Dictionary t'))
      end
  | Array t =>
      match budget with
      | O => None
      | S budget' =>
          run! (refs', dst', t') :=
            copyElements (λ r d v, copyReferencedObjects budget' r d src v)
                         refs dst t in
          Some (Ok (refs', dst', Array t'))
      end
  | Stream d payload =>
      match budget with
      | O => None
      | S budget' =>
          run! (refs', dst', d') :=
            copyEntries (λ r d v, copyReferencedObjects budget' r d src v)
                        refs dst d in
          Some (Ok (refs', dst', Stream d' payload))
      end
  | Name _ | Integer _ | String _ | Real _ =>
      (* these types can't have references *)
      Some (Ok (refs, dst, obj))
  | _ => Some (Err (unhandled obj))
  end.

(** A budget that is always enough (see [copyReferencedObjects_budget]):
    every source reference outside the table is entered at most once, and
    below a reference the recursion is structural. *)
Fixpoint depth (o : Object) : nat :=
  match o with
  | Dictionary d | Stream d _ =>
      S ((fix entries (l : list (string * Object)) : nat :=
            match l with
            | [] => O
            | e :: l' => Nat.max (depth e.2) (entries l')
            end) d)
  | Array a =>
      S ((fix elements (l : list Object) : nat :=
            match l with
            | [] => O
            | v :: l' => Nat.max (depth v) (elements l')
            end) a)
  | _ => O
  end.

Definition maxDepth (src : File) : nat :=
  map_fold (λ _ o acc, Nat.max (depth o) acc) O (objects src).

Definition unvisited (refs : gmap ObjectReference ObjectReference)
    (src : File) : nat :=
  size (dom (objects src) ∖ dom refs).

Definition copyBudget (refs : gmap ObjectReference ObjectReference)
    (src : File) (obj : Object) : nat :=
  (depth obj + 1 + unvisited refs src * (maxDepth src + 2))%nat.

(** The copy engine as [MergeFiles] calls it. *)
Definition copyObjects `{Collaborators}
    (refs : gmap ObjectReference ObjectReference) (dst src : File)
    (obj : Object)
    : result (gmap ObjectReference ObjectReference * File * Object) :=
  default (Panic "step budget exhausted")
          (copyReferencedObjects (copyBudget refs src obj) refs dst src obj).

(** ** Type assertions

    [x.(T)] without the comma-ok form panics when [x] is nil or of
    another dynamic type. *)
Definition conversionPanic {A : Type} (x : option Object) (want : string)
    : result A :=
  Panic ("interface conversion: pdf.Object is "
         +:+ from_option typeName "nil" x +:+ ", not " +:+ want).

Definition assertObjectReference (x : option Object) : result ObjectReference :=
  match x with
  | Some (Ref r) => Ok r
  | _ => conversionPanic x "pdf.ObjectReference"
  end.

Definition assertDictionary (x : option Object)
    : result (list (string * Object)) :=
  match x with
  | Some (Dictionary d) => Ok d
  | _ => conversionPanic x "pdf.Dictionary"
  end.

Definition assertInteger (x : option Object) : result Z :=
  match x with
  | Some (Integer i) => Ok i
  | _ => conversionPanic x "pdf.Integer"
  end.

Arguments assertObjectReference : simpl never.
Arguments assertDictionary : simpl never.
Arguments assertInteger : simpl never.

(** ** The page-tree merger *)

(** The loop of [mergePageTrees] over the catalogs, with the loop
    variables [file], [kids] and [pageCount]. *)
Fixpoint reparentPages `{Collaborators} (pageTreeRef : ObjectReference)
    (file : File) (kids : list Object) (pageCount : Z)
    (catalogs : list (list (string * Object)))
    : result (File * list Object * Z) :=
  match catalogs with
  | [] => Ok (file, kids, pageCount)
  | catalog :: catalogs' =>
      (* add the old page tree root to our list of kids *)
      try! pagesRef := assertObjectReference (dictGet catalog "Pages") in
      let kids := kids ++ [Ref pagesRef] in
      (* now that the old page tree root is a kid, it needs a parent *)
      try! pages := assertDictionary (Some (Get file pagesRef)) in
      let pages := dictSet pages "Parent" (Ref pageTreeRef) in
      try! (file, _) := Add file (IndirectObject pagesRef (Dictionary pages)) in
      try! count := assertInteger (dictGet pages "Count") in
      reparentPages pageTreeRef file kids (intAdd pageCount count) catalogs'
  end.

Definition mergePageTrees `{Collaborators} (file : File)
    (catalogs : list (list (string * Object)))
    : result (File * ObjectReference) :=
  (* reserve a reference for the new page tree root *)
  try! (file, pageTreeRef) := Add file Null in
  (* use the old page tree roots as our page tree kids *)
  try! (file, kids, pageCount) := reparentPages pageTreeRef file [] 0 catalogs in
  (* create the merged page tree *)
  try! (file, _) :=
    Add file (IndirectObject pageTreeRef
                (Dictionary [("Type", Name "Pages");
                             ("Kids", Array kids);
                             ("Count", Integer pageCount)])) in
  Ok (file, pageTreeRef).

(** ** The merge orchestrator *)

(** What [MergeFiles] does to the outside world, in order.  A source
    handle is named by its position among the opened ones. *)
Inductive Event : Type :=
| Created
| Opened (h : nat) (fn : string)
| Copied (h : nat)
| PageTreesMerged
| CatalogInstalled
| Saved
| Closed (h : nat).

#[export] Instance Event_eq_dec : EqDecision Event.
Proof. solve_decision. Defined.

(** The part of the state of [MergeFiles] that outlives an early
    [return]: the slice [closers] read by the deferred function, and the
    events so far. *)
Record Frame : Type := mkFrame {
  closers : list nat;
  events : list Event
}.

Definition M (A : Type) : Type := Frame → result A * Frame.

Definition mret {A : Type} (a : A) : M A := λ fr, (Ok a, fr).

Definition mlift {A : Type} (r : result A) : M A := λ fr, (r, fr).

Definition mseq {A B : Type} (m : M A) (k : A → M B) : M B :=
  λ fr, match m fr with
        | (Ok a, fr') => k a fr'
        | (Err e, fr') => (Err e, fr')
        | (Panic msg, fr') => (Panic msg, fr')
        end.

Definition emit (e : Event) : M unit :=
  λ fr, (Ok tt, mkFrame (closers fr) (events fr ++ [e])).

(** [closers = append(closers, file)] *)
Definition register : M nat :=
  λ fr, let h := length (closers fr) in
        (Ok h, mkFrame (closers fr ++ [h]) (events fr)).

Notation "'do!' p := m 'in' k" := (mseq m (λ p, k))
  (at level 10, p pattern, m at level 100, k at level 200, only parsing).

(** [%q] on a string of printable characters. *)
Definition dquote : string := String.String "034"%char "".

Fixpoint escape (s : string) : string :=
  match s with
  | EmptyString => ""
  | String.String c s' =>
      if decide (c = "034"%char ∨ c = "092"%char)
      then String.String "092"%char (String.String c (escape s'))
      else String.String c (escape s')
  end.

Definition quoted (s : string) : string := dquote +:+ escape s +:+ dquote.

(** One turn of [for _, fn := range sources]. *)
Definition mergeSource `{Collaborators} (merged : File)
    (roots : list ObjectReference) (fn : string)
    : M (File * list ObjectReference) :=
  do! file := mlift (match pdfOpen fn with
                     | Ok file => Ok file
                     | Err openErr => Err ("open " +:+ quoted fn +:+ ": " +:+ openErr)
                     | Panic msg => Panic msg
                     end) in
  do! h := register in
  do! _ := emit (Opened h fn) in
  do! (_, merged, root) :=
    mlift (copyObjects ∅ merged file (Ref (Root file))) in
  do! _ := emit (Copied h) in
  do! root' := mlift (assertObjectReference (Some root)) in
  mret (setRoot merged root', roots ++ [root']).

Fixpoint mergeSources `{Collaborators} (merged : File)
    (roots : list ObjectReference) (sources : list string)
    : M (File * list ObjectReference) :=
  match sources with
  | [] => mret (merged, roots)
  | fn :: sources' =>
      do! (merged, roots) := mergeSource merged roots fn in
      mergeSources merged roots sources'
  end.

(** [for _, root := range roots { catalogs = append(catalogs,
    merged.Get(root).(pdf.Dictionary)) }] *)
Fixpoint getCatalogs (merged : File) (roots : list ObjectReference)
    : result (list (list (string * Object))) :=
  match roots with
  | [] => Ok []
  | root :: roots' =>
      try! catalog := assertDictionary (Some (Get merged root)) in
      try! catalogs := getCatalogs merged roots' in
      Ok (catalog :: catalogs)
  end.

(** The body of [MergeFiles] after the deferred function is set up. *)
Definition mergeBody `{Collaborators} (merged : File) (sources : list string)
    : M File :=
  (* add the contents of each pdf into the merged pdf *)
  do! (merged, roots) := mergeSources merged [] sources in
  (* get the catalogs for each of the pdfs *)
  do! catalogs := mlift (getCatalogs merged roots) in
  (* merge the page trees *)
  do! (merged, pageTreeRef) := mlift (mergePageTrees merged catalogs) in
  do! _ := emit PageTreesMerged in
  (* create a new root *)
  do! (merged, root) :=
    mlift (Add merged (Dictionary [("Type", Name "Catalog");
                                   ("Pages", Ref pageTreeRef)])) in
  let merged := setRoot merged root in
  do! _ := emit CatalogInstalled in
  do! _ := mlift (match saveErr merged with
                  | Some e => Err e
                  | None => Ok tt
                  end) in
  do! _ := emit Saved in
  mret merged.

(** The result of a call of [MergeFiles]: what it returns ([Ok] with the
    saved document for a nil error) and what it did. *)
Record Run : Type := mkRun {
  outcome : result File;
  trace : list Event
}.

Definition MergeFiles `{Collaborators} (dest : string) (sources : list string)
    : Run :=
  match pdfCreate dest with
  | Err e => mkRun (Err ("create " +:+ quoted dest +:+ ": " +:+ e)) []
  | Panic msg => mkRun (Panic msg) []
  | Ok merged =>
      let '(res, fr) := mergeBody merged sources (mkFrame [] [Created]) in
      (* the deferred function: close every handle in [closers] *)
      mkRun res (events fr ++ (Closed <$> closers fr))
  end.

Definition openedHandles (tr : list Event) : list nat :=
  omap (λ e, match e with Opened h _ => Some h | _ => None end) tr.

Definition copiedHandles (tr : list Event) : list nat :=
  omap (λ e, match e with Copied h => Some h | _ => None end) tr.

Definition closedHandles (tr : list Event) : list nat :=
  omap (λ e, match e with Closed h => Some h | _ => None end) tr.

(** ** Example documents and environments *)

Definition ref (n : N) : ObjectReference := mkRef n 0.

(** A document with one page: the page points back to its page-tree
    root through [Parent], so the graph has a cycle. *)
Definition onePage : File :=
  mkFile (list_to_map
    [(ref 1, Dictionary [("Type", Name "Catalog"); ("Pages", Ref (ref 2))]);
     (ref 2, Dictionary [("Type", Name "Pages");
                         ("Kids", Array [Ref (ref 3)]);
                         ("Count", Integer 1)]);
     (ref 3, Dictionary [("Type", Name "Page"); ("Parent", Ref (ref 2));
                         ("MediaBox", Array [Integer 0; Integer 0;
                                             Integer 612; Integer 792])])])
    (ref 1).

(** A page tree that declares the largest page count an [int] holds. *)
Definition hugeCount : File :=
  mkFile (list_to_map
    [(ref 1, Dictionary [("Type", Name "Pages"); ("Kids", Array []);
                         ("Count", Integer 9223372036854775807)]);
     (ref 2, Dictionary [("Type", Name "Pages"); ("Kids", Array []);
                         ("Count", Integer 1)])])
    (ref 1).

(** A catalog whose [Title] entry is the null object. *)
Definition nullEntry : File :=
  mkFile (list_to_map
    [(ref 1, Dictionary [("Type", Name "Catalog"); ("Pages", Ref (ref 2));
                         ("Title", Null)]);
     (ref 2, Dictionary [("Type", Name "Pages"); ("Kids", Array []);
                         ("Count", Integer 0)])])
    (ref 1).

(** A document whose root object is a dictionary without [Pages]. *)
Definition noPages : File :=
  mkFile (list_to_map [(ref 1, Dictionary [("Type", Name "Catalog")])]) (ref 1).

(** An environment in which the store never fails and three paths
    exist. *)
Definition disk : Collaborators := {|
  addErr := λ _ _, None;
  pdfOpen := λ fn,
    if decide (fn = "a.pdf") then Ok onePage
    else if decide (fn = "b.pdf") then Ok onePage
    else if decide (fn = "nopages.pdf") then Ok noPages
    else Err "no such file";
  pdfCreate := λ _, Ok emptyFile;
  saveErr := λ _, None
|}.

(** ** What a copy pass may change

    [pass refs dst refs' dst'] relates the table and the destination
    before and after (part of) the copy of one source: old mappings and
    old slots are kept, and the new mappings are one-to-one with the new
    slots. *)
Record pass (refs : gmap ObjectReference ObjectReference) (dst : File)
    (refs' : gmap ObjectReference ObjectReference) (dst' : File) : Prop := {
  pass_refs : refs ⊆ refs';
  pass_frame : ∀ r o, objects dst !! r = Some o → objects dst' !! r = Some o;
  pass_root : Root dst' = Root dst;
  pass_fresh : ∀ t r, refs' !! t = Some r → refs !! t = None →
                 objects dst !! r = None ∧ is_Some (objects dst' !! r);
  pass_inj : ∀ t1 t2 r, refs' !! t1 = Some r → refs' !! t2 = Some r →
               refs !! t1 = None → refs !! t2 = None → t1 = t2;
  pass_count : (size (objects dst') + size refs
                = size (objects dst) + size refs')%nat
}.

(** ** What the page-tree merger may change *)

Definition sumZ (l : list Z) : Z := foldr Z.add 0 l.

(** The entry [k] of an object that is a dictionary. *)
Definition field (o : Object) (k : string) : option Object :=
  match o with
  | Dictionary d => dictGet d k
  | _ => None
  end.

(** [catalog] has a [Pages] reference to a dictionary of [file] that has
    an integer [Count]. *)
Definition wellFormedCatalog (file : File) (catalog : list (string * Object))
    : Prop :=
  ∃ r p n, dictGet catalog "Pages" = Some (Ref r)
           ∧ Get file r = Dictionary p
           ∧ dictGet p "Count" = Some (Integer n).

(** [file'] is [file] with the [Parent] of the page-tree roots [refs] set
    to [root], and nothing else changed. *)
Definition reparented (root : ObjectReference) (refs : list ObjectReference)
    (file file' : File) : Prop :=
  Root file' = Root file
  ∧ ∀ r, if decide (r ∈ refs)
         then ∃ p, Get file r = Dictionary p
                   ∧ objects file' !! r
                     = Some (Dictionary (dictSet p "Parent" (Ref root)))
         else objects file' !! r = objects file !! r.

(** A call that ends in a run-time panic, or returns an error that the
    destination's [Add] produced. *)
Definition panicsOrStoreError `{Collaborators} {A : Type} (res : result A)
    : Prop :=
  (∃ msg, res = Panic msg) ∨ (∃ e f o, res = Err e ∧ addErr f o = Some e).

(** ** What the orchestrator logs *)

(** The events of the turns of the loop over [sources] when every turn
    succeeds, the first handle being [h]. *)
Fixpoint sourceEvents (h : nat) (sources : list string) : list Event :=
  match sources with
  | [] => []
  | fn :: sources' => Opened h fn :: Copied h :: sourceEvents (S h) sources'
  end.

(** Every handle opened so far is in [closers], and none is closed. *)
Definition tracked (fr : Frame) : Prop :=
  openedHandles (events fr) = closers fr ∧ closedHandles (events fr) = [].

(** [m] keeps the handles tracked, however it ends. *)
Definition keeps {A : Type} (m : M A) : Prop :=
  ∀ fr res fr', m fr = (res, fr') → tracked fr → tracked fr'.

(** Every opening of a source comes before every copy of a source. *)
Definition opensBeforeCopies (tr : list Event) : Prop :=
  ∀ i j h fn h', tr !! i = Some (Opened h fn) → tr !! j = Some (Copied h') →
                 (i < j)%nat.

(** ** What the copy of an object is *)

(** The references that occur in an object, nested ones included. *)
Fixpoint refsOf (o : Object) : list ObjectReference :=
  match o with
  | Ref t => [t]
  | Dictionary d | Stream d _ => d ≫= (λ e, refsOf e.2)
  | Array a => a ≫= refsOf
  | _ => []
  end.

(** [o] with every reference replaced by what the table maps it to;
    keys, order, lengths, payloads and leaves are kept. *)
Fixpoint translate (refs : gmap ObjectReference ObjectReference) (o : Object)
    : Object :=
  match o with
  | Ref t => Ref (default t (refs !! t))
  | Dictionary d => Dictionary ((λ e, (e.1, translate refs e.2)) <$> d)
  | Array a => Array (translate refs <$> a)
  | Stream d payload =>
      Stream ((λ e, (e.1, translate refs e.2)) <$> d) payload
  | _ => o
  end.

(** The slots that entered the table [refs'] after [refs] hold, in
    [dst'], the translated objects of the source, and every reference in
    them is mapped. *)
Definition copied (src : File) (refs : gmap ObjectReference ObjectReference)
    (refs' : gmap ObjectReference ObjectReference) (dst' : File) : Prop :=
  ∀ t r, refs' !! t = Some r → refs !! t = None →
         (∀ t', t' ∈ refsOf (Get src t) → is_Some (refs' !! t'))
         ∧ Get dst' r = translate refs' (Get src t).

(** * The tabular readers (package [dbcsv] of [src/dbcsv/read.go])

    File type detection, the [Config] caches and the row loops of the
    CSV, XLS and XLSX readers.  The parsers themselves ([encoding/csv],
    [excelize], [xls]), the file system and the character sets are
    collaborators: what they return is given by the environment
    [World], how the package drives them is the code below. *)

Module dbcsv.

Inductive Error : Type :=
| EOF                            (* io.EOF *)
| ErrUnexpectedEOF               (* io.ErrUnexpectedEOF *)
| UnknownSheet                   (* the package variable UnknownSheet *)
| ErrSyntax (num : string)       (* strconv.Atoi: parsing num: invalid syntax *)
| ErrRange (num : string)        (* strconv.Atoi: parsing num: value out of range *)
| Wrap (cause : Error) (msg : string)  (* errors.Wrap(cause, msg) *)
| NoSheet (sheetIndex : Z)       (* "This XLS file does not contain sheet no %d!" *)
| External (msg : string).       (* an error made by a collaborator *)

(** A call that returns, returns an error, or panics. *)
Inductive outcome (A : Type) : Type :=
| Done (a : A)
| Fail (e : Error)
| Crash (msg : string).
Arguments Done {A} a.
Arguments Fail {A} e.
Arguments Crash {A} msg.

#[export] Instance byte_eq_dec : EqDecision Byte.byte.
Proof.
  intros x y. destruct (Byte.eqb x y) eqn:Heq.
  - left. by apply Byte.byte_dec_bl.
  - right. intros Hxy. apply Byte.byte_dec_lb in Hxy. congruence.
Defined.

(** ** File types *)

Definition FileType : Type := string.
Definition Unknown : FileType := "".
Definition Csv : FileType := "csv".
Definition Xls : FileType := "xls".
Definition XlsX : FileType := "xlsx".

(** An [io.Reader]: the bytes it delivers, then the error it ends with
    ([None] for [io.EOF]). *)
Record Reader : Type := mkReader {
  content : list Byte.byte;
  failure : option Error
}.

(** [io.ReadFull(r, buf)] with [len(buf) = n > 0]. *)
Definition ReadFull (r : Reader) (n : nat) : list Byte.byte + Error :=
  if decide (n ≤ length (content r))%nat then inl (take n (content r))
  else match failure r with
       | Some e => inr e
       | None => match content r with
                 | [] => inr EOF
                 | _ => inr ErrUnexpectedEOF
                 end
       end.

(** [filepath.Ext] where the separator is [/]: the scan runs from the
    end of the path to the last separator. *)
Fixpoint extScan (reversed : list ascii) (suffix : list ascii) : string :=
  match reversed with
  | [] => ""
  | c :: rest =>
      if decide (c = "/"%char) then ""
      else if decide (c = "."%char) then String.string_of_list_ascii (c :: suffix)
      else extScan rest (c :: suffix)
  end.

Definition Ext (path : string) : string :=
  extScan (rev (String.list_ascii_of_string path)) [].

Definition DetectReaderType (r : Reader) (fileName : string)
    : FileType * option Error :=
  match ReadFull r 4 with
  | inr err => (Unknown, Some err)
  | inl b =>
      if decide (b = [Byte.xd0; Byte.xcf; Byte.x11; Byte.xe0]) then (Xls, None)
      else if decide (b = [Byte.x50; Byte.x4b; Byte.x03; Byte.x04])
      then (XlsX, None)
      else if decide (take 1 b = [Byte.x22]) then (Csv, None)
      else if decide (Ext fileName = ".xls") then (Xls, None)
      else if decide (Ext fileName = ".xlsx") then (XlsX, None)
      else (Csv, None)
  end.

(** ** The environment *)

Record Row : Type := mkRow {
  Line : Z;
  Values : list string
}.

(** An [excelize] workbook: the name of a sheet ([""] if there is none)
    and the rows of a named sheet, [None] for a nil row. *)
Record XlsxFile : Type := mkXlsxFile {
  GetSheetName : Z → string;
  GetRows : string → list (option (list string))
}.

(** An [xls] row, sheet and workbook, as far as the package uses them. *)
Record XlsRow : Type := mkXlsRow {
  FirstCol : Z;
  LastCol : Z;
  Col : Z → string
}.

Record WorkSheet : Type := mkWorkSheet {
  Name : string;
  MaxRow : N;
  SheetRow : Z → option XlsRow
}.

Record WorkBook : Type := mkWorkBook {
  GetSheet : Z → option WorkSheet
}.

(** What [cr.Read()] returns call after call for a configured
    [csv.Reader]: the records, then an error ([None] for [io.EOF]). *)
Record CsvReader : Type := mkCsvReader {
  records : list (list string);
  readErr : option Error
}.

Class World : Type := {
  osOpen : string → Reader + Error;
  DefaultEncoding : string;
  htmlindexGet : string → option string * option Error;
  excelizeOpenFile : string → XlsxFile + Error;
  xlsOpen : string → string → WorkBook + Error
}.

(** A [context.Context], as the sequence of answers to the successive
    questions whether it is done. *)
Definition Context : Type := nat → option Error.

(** ** [Config] *)

Record Config : Type := mkConfig {
  typ : FileType;
  Sheet : Z;
  Skip : Z;
  Delim : string;
  Charset : string;
  ColumnsString : string;
  encoding : option string;
  columns : option (list Z);
  fileName : string
}.

Definition setTyp (cfg : Config) (t : FileType) : Config :=
  mkConfig t (Sheet cfg) (Skip cfg) (Delim cfg) (Charset cfg)
           (ColumnsString cfg) (encoding cfg) (columns cfg) (fileName cfg).

Definition setEncoding (cfg : Config) (e : option string) : Config :=
  mkConfig (typ cfg) (Sheet cfg) (Skip cfg) (Delim cfg) (Charset cfg)
           (ColumnsString cfg) e (columns cfg) (fileName cfg).

Definition setColumns (cfg : Config) (c : option (list Z)) : Config :=
  mkConfig (typ cfg) (Sheet cfg) (Skip cfg) (Delim cfg) (Charset cfg)
           (ColumnsString cfg) (encoding cfg) c (fileName cfg).

Definition Encoding `{World} (cfg : Config)
    : Config * (option string * option Error) :=
  match encoding cfg with
  | Some e => (cfg, (Some e, None))
  | None =>
      if decide (Charset cfg = "") then (cfg, (Some DefaultEncoding, None))
      else let '(e, err) := htmlindexGet (Charset cfg) in
           (setEncoding cfg e, (e, err))
  end.

(** [strings.Split(s, ",")] *)
Fixpoint Split (s : string) : list string :=
  match s with
  | "" => [""]
  | String.String c s' =>
      if decide (c = ","%char) then "" :: Split s'
      else match Split s' with
           | x :: xs => String.String c x :: xs
           | [] => [String.String c ""]
           end
  end.

(** [strconv.Atoi] on a 64-bit platform: an optional sign, then decimal
    digits accumulated in a [uint64]; the first character that is no
    digit is a syntax error, an accumulator that overflows a range
    error, whichever comes first. *)
Definition digit (c : ascii) : option Z :=
  let n := Z.of_N (N_of_ascii c) in
  if decide (48 ≤ n ≤ 57)%Z then Some (n - 48) else None.

Fixpoint parseUint (num : string) (s : string) (n : Z) : Z * option Error :=
  match s with
  | "" => (n, None)
  | String.String c s' =>
      match digit c with
      | None => (0, Some (ErrSyntax num))
      | Some d =>
          if decide ((2 ^ 64 - 1) `div` 10 + 1 ≤ n)%Z then (2 ^ 64 - 1, Some (ErrRange num))
          else if decide (2 ^ 64 - 1 < n * 10 + d)%Z
               then (2 ^ 64 - 1, Some (ErrRange num))
               else parseUint num s' (n * 10 + d)
      end
  end.

Definition Atoi (s : string) : Z * option Error :=
  match s with
  | "" => (0, Some (ErrSyntax s))
  | String.String c s' =>
      let neg := bool_decide (c = "-"%char) in
      let body := if decide (c = "+"%char ∨ c = "-"%char) then s' else s in
      match body with
      | "" => (0, Some (ErrSyntax s))
      | _ =>
          match parseUint s body 0 with
          | (_, Some (ErrRange _)) =>
              (if neg then - 2 ^ 63 else 2 ^ 63 - 1, Some (ErrRange s))
          | (_, Some err) => (0, Some err)
          | (un, None) =>
              if decide (neg = false ∧ (2 ^ 63 ≤ un)%Z)
              then (2 ^ 63 - 1, Some (ErrRange s))
              else if decide (neg = true ∧ (2 ^ 63 < un)%Z)
                   then (- 2 ^ 63, Some (ErrRange s))
                   else (if neg then - un else un, None)
          end
      end
  end.

(** The loop of [Columns] over the fields, [acc] being [cfg.columns]. *)
Fixpoint parseColumns (acc : list Z) (fields : list string)
    : list Z * option Error :=
  match fields with
  | [] => (acc, None)
  | x :: fields' =>
      match Atoi x with
      | (_, Some err) => (acc, Some (Wrap err x))
      | (i, None) => parseColumns (acc ++ [wrapInt (i - 1)]) fields'
      end
  end.

Definition Columns (cfg : Config)
    : Config * (option (list Z) * option Error) :=
  if decide (ColumnsString cfg = "") then (cfg, (None, None))
  else match columns cfg with
       | Some c => (cfg, (Some c, None))
       | None =>
           let '(c, err) := parseColumns [] (Split (ColumnsString cfg)) in
           (setColumns cfg (Some c), (Some c, err))
       end.

Definition Type_ `{World} (cfg : Config) (fileName : string)
    : Config * (FileType * option Error) :=
  if decide (typ cfg ≠ Unknown) then (cfg, (typ cfg, None))
  else match osOpen fileName with
       | inr err => (cfg, (Unknown, Some err))
       | inl fh =>
           let '(t, err) := DetectReaderType fh fileName in
           (setTyp cfg t, (t, err))
       end.

(** ** The row loops *)

(** [row[j]] on a slice. *)
Definition index (row : list string) (j : Z) : outcome string :=
  if decide (0 ≤ j < Z.of_nat (length row))%Z
  then Done (default "" (row !! Z.to_nat j))
  else Crash "index out of range".

(** [r2 := make([]string, len(columns)); for i, j := range columns
    { r2[i] = row[j] }] *)
Fixpoint pick (row : list string) (cols : list Z) : outcome (list string) :=
  match cols with
  | [] => Done []
  | j :: cols' =>
      match index row j with
      | Done v =>
          match pick row cols' with
          | Done vs => Done (v :: vs)
          | Fail e => Fail e
          | Crash msg => Crash msg
          end
      | Fail e => Fail e
      | Crash msg => Crash msg
      end
  end.

(** The loop [for { row, err := cr.Read() ... }] of [ReadCSV]: [n] is
    the record counter and [k] the number of questions already put to
    the context.  The result is what [ReadCSV] returns and the rows
    handed to [fn], in order. *)
Fixpoint readRecords (ctx : Context) (fn : Row → option Error)
    (cols : option (list Z)) (skip : Z) (recs : list (list string))
    (readErr : option Error) (n : Z) (k : nat)
    : outcome unit * list Row :=
  match recs with
  | [] =>
      match readErr with
      | None | Some EOF => (Done tt, [])
      | Some err => (Fail err, [])
      end
  | row :: recs' =>
      let n := (n + 1)%Z in
      if decide (n < skip)%Z then readRecords ctx fn cols skip recs' readErr n k
      else
        match (match cols with
               | Some cols => pick row cols
               | None => Done row
               end) with
        | Fail e => (Fail e, [])
        | Crash msg => (Crash msg, [])
        | Done row =>
            match ctx k with
            | Some err => (Fail err, [])
            | None =>
                let r := mkRow (n - 1) row in
                match fn r with
                | Some err => (Fail err, [r])
                | None =>
                    let '(res, rows) :=
                      readRecords ctx fn cols skip recs' readErr n (S k) in
                    (res, r :: rows)
                end
            end
        end
  end.

(** [ReadCSV] from the point where the [csv.Reader] [cr] is configured
    (the choice of the delimiter and the parser are [cr]'s). *)
Definition ReadCSV (ctx : Context) (fn : Row → option Error)
    (cr : CsvReader) (cols : option (list Z)) (skip : Z)
    : outcome unit * list Row :=
  match ctx O with
  | Some err => (Fail err, [])
  | None => readRecords ctx fn cols skip (records cr) (readErr cr) 0 1
  end.

(** The loop [for i, row := range xlFile.GetRows(sheetName)]. *)
Fixpoint xlsxRows (ctx : Context) (fn : string → Row → option Error)
    (sheetName : string) (skip : Z) (rows : list (option (list string)))
    (i : Z) (n : Z) (k : nat) : outcome unit * list (string * Row) :=
  match rows with
  | [] => (Done tt, [])
  | row :: rows' =>
      if decide (i < skip)%Z
      then xlsxRows ctx fn sheetName skip rows' (i + 1)%Z n k
      else
        match row with
        | None => xlsxRows ctx fn sheetName skip rows' (i + 1)%Z n k
        | Some row =>
            match ctx k with
            | Some err => (Fail err, [])
            | None =>
                let r := mkRow n row in
                match fn sheetName r with
                | Some err => (Fail err, [(sheetName, r)])
                | None =>
                    let '(res, out) :=
                      xlsxRows ctx fn sheetName skip rows' (i + 1)%Z
                               (n + 1)%Z (S k) in
                    (res, (sheetName, r) :: out)
                end
            end
        end
  end.

(** [ReadXLSXFile]; the map [need] that the source builds from
    [columns] is never read, so [columns] has no use. *)
Definition ReadXLSXFile `{World} (ctx : Context)
    (fn : string → Row → option Error) (filename : string) (sheetIndex : Z)
    (cols : option (list Z)) (skip : Z)
    : outcome unit * list (string * Row) :=
  match ctx O with
  | Some err => (Fail err, [])
  | None =>
      match excelizeOpenFile filename with
      | inr err => (Fail (Wrap err ("open " +:+ quoted filename)), [])
      | inl xlFile =>
          let sheetName := GetSheetName xlFile sheetIndex in
          if decide (sheetName = "")
          then (Fail (Wrap UnknownSheet (pretty sheetIndex)), [])
          else xlsxRows ctx fn sheetName skip (GetRows xlFile sheetName) 0 0 1
      end
  end.

(** [need]: nil for no columns, else the set of the columns. *)
Definition mkNeed (cols : option (list Z)) : option (gset Z) :=
  match cols with
  | Some (c :: cols') => Some (list_to_set (c :: cols'))
  | _ => None
  end.

(** [for j := off; j < row.LastCol(); j++ { if need != nil && !need[j]
    { continue }; vals[j] = row.Col(j) }] over the indices [js]. *)
Fixpoint fillCols (need : option (gset Z)) (row : XlsRow)
    (vals : list string) (js : list Z) : outcome (list string) :=
  match js with
  | [] => Done vals
  | j :: js' =>
      if match need with Some s => bool_decide (j ∉ s) | None => false end
      then fillCols need row vals js'
      else if decide (0 ≤ j < Z.of_nat (length vals))%Z
           then fillCols need row (<[Z.to_nat j := Col row j]> vals) js'
           else Crash "index out of range"
  end.

(** The values of one row of an XLS sheet, and the new [maxWidth]. *)
Definition xlsValues (need : option (gset Z)) (row : XlsRow) (maxWidth : Z)
    : outcome (list string) * Z :=
  let vals : list string := [] in
  let off := FirstCol row in
  let '(vals, maxWidth) :=
    if decide (Z.of_nat (length vals) ≤ LastCol row)%Z
    then (vals ++ replicate
                    (Z.to_nat (LastCol row + 1 - Z.of_nat (length vals))) "",
          (LastCol row + 1)%Z)
    else (vals, maxWidth) in
  (fillCols need row vals (seqZ off (LastCol row - off)), maxWidth).

(** The loop [for n := 0; n < int(sheet.MaxRow); n++] over the row
    numbers [ns]. *)
Fixpoint xlsRows (ctx : Context) (fn : string → Row → option Error)
    (sheet : WorkSheet) (need : option (gset Z)) (skip : Z) (ns : list Z)
    (maxWidth : Z) (k : nat) : outcome unit * list (string * Row) :=
  match ns with
  | [] => (Done tt, [])
  | n :: ns' =>
      if decide (n < skip)%Z
      then xlsRows ctx fn sheet need skip ns' maxWidth k
      else
        match SheetRow sheet n with
        | None => xlsRows ctx fn sheet need skip ns' maxWidth k
        | Some row =>
            match ctx k with
            | Some err => (Fail err, [])
            | None =>
                match xlsValues need row maxWidth with
                | (Fail e, _) => (Fail e, [])
                | (Crash msg, _) => (Crash msg, [])
                | (Done vals, maxWidth) =>
                    match ctx (S k) with
                    | Some err => (Fail err, [])
                    | None =>
                        let r := mkRow n vals in
                        match fn (Name sheet) r with
                        | Some err => (Fail err, [(Name sheet, r)])
                        | None =>
                            let '(res, out) :=
                              xlsRows ctx fn sheet need skip ns' maxWidth
                                      (S (S k)) in
                            (res, (Name sheet, r) :: out)
                        end
                    end
                end
            end
        end
  end.

Definition ReadXLSFile `{World} (ctx : Context)
    (fn : string → Row → option Error) (filename charset : string)
    (sheetIndex : Z) (cols : option (list Z)) (skip : Z)
    : outcome unit * list (string * Row) :=
  match ctx O with
  | Some err => (Fail err, [])
  | None =>
      match xlsOpen filename charset with
      | inr err => (Fail (Wrap err ("open " +:+ quoted filename)), [])
      | inl wb =>
          match GetSheet wb sheetIndex with
          | None => (Fail (NoSheet sheetIndex), [])
          | Some sheet =>
              xlsRows ctx fn sheet (mkNeed cols) skip
                      (seqZ 0 (Z.of_N (MaxRow sheet))) 0 1
          end
      end
  end.

End dbcsv.

(** What [ReadXLSFile] puts at index [j] of the values of a row: the
    cell, if [j] is from the first column up to but not including
    [LastCol] and is a wanted column (every column is when none is
    asked for), and the empty string otherwise. *)
Definition xlsCell (cols : option (list Z)) (row : dbcsv.XlsRow) (j : Z)
    : string :=
  if bool_decide ((dbcsv.FirstCol row ≤ j < dbcsv.LastCol row)%Z
                  ∧ (length (default [] cols) = O ∨ j ∈ default [] cols))
  then dbcsv.Col row j else "".

(** ** Example tables and environments *)

(** A sheet with rows 0 and 2; row 1 is missing. *)
Definition ledger : dbcsv.WorkSheet :=
  dbcsv.mkWorkSheet "ledger" 3
    (λ n, if decide (n = 0) then
            Some (dbcsv.mkXlsRow 0 2 (λ j, if decide (j = 0) then "id" else "sum"))
          else if decide (n = 2) then
            Some (dbcsv.mkXlsRow 1 3 (λ j, if decide (j = 1) then "7" else "9"))
          else None).

(** An environment with one file of each kind. *)
Definition office : dbcsv.World := {|
  dbcsv.osOpen := λ fn,
    if decide (fn = "data.bin")
    then inl (dbcsv.mkReader [Byte.x50; Byte.x4b; Byte.x03; Byte.x04; Byte.x14]
                             None)
    else inr (dbcsv.External "no such file");
  dbcsv.DefaultEncoding := "replacement";
  dbcsv.htmlindexGet := λ name,
    if decide (name = "latin2") then (Some "iso-8859-2", None)
    else (None, Some (dbcsv.External "invalid encoding name"));
  dbcsv.excelizeOpenFile := λ fn,
    if decide (fn = "book.xlsx")
    then inl (dbcsv.mkXlsxFile
                (λ i, if decide (i = 1) then "Sheet1" else "")
                (λ name, if decide (name = "Sheet1")
                         then [Some ["id"; "sum"]; None; Some ["1"; "7"]]
                         else []))
    else inr (dbcsv.External "no such file");
  dbcsv.xlsOpen := λ fn charset,
    if decide (fn = "book.xls")
    then inl (dbcsv.mkWorkBook (λ i, if decide (i = 0) then Some ledger else None))
    else inr (dbcsv.External "no such file")
|}.

Definition defaults : dbcsv.Config :=
  dbcsv.mkConfig dbcsv.Unknown 0 0 "" "" "" None None "".

Definition withColumns (columnsString : string) : dbcsv.Config :=
  dbcsv.mkConfig dbcsv.Unknown 0 0 "" "" columnsString None None "".

(** * Properties *)

(** ** The document handle *)

Lemma maxObjectNumber_ge (m : gmap ObjectReference Object) r o :
  m !! r = Some o → (ObjectNumber r ≤ maxObjectNumber m)%N.
Proof.
  unfold maxObjectNumber. revert r o.
  apply (map_fold_weak_ind
           (λ acc (m : gmap ObjectReference Object),
              ∀ r o, m !! r = Some o → (ObjectNumber r ≤ acc)%N)).
  - intros r o Hr. by rewrite lookup_empty in Hr.
  - intros i x m' acc Hi IH r o Hr.
    destruct (decide (i = r)) as [->|Hne].
    + lia.
    + rewrite lookup_insert_ne in Hr by done.
      specialize (IH r o Hr). lia.
Qed.

Lemma freshRef_fresh (f : File) : objects f !! freshRef f = None.
Proof.
  destruct (objects f !! freshRef f) as [o|] eqn:Ho; [|done].
  apply maxObjectNumber_ge in Ho. simpl in Ho. lia.
Qed.

Section store.
Context `{Collaborators}.

Lemma Add_plain f obj f' r :
  (∀ r' o, obj ≠ IndirectObject r' o) →
  Add f obj = Ok (f', r) →
  r = freshRef f ∧ f' = store f r obj.
Proof.
  unfold Add. intros Hplain.
  destruct (addErr f obj); [done|].
  destruct obj; intros [= <- <-]; try done.
  by destruct (Hplain r0 obj).
Qed.

Lemma Add_Null f f' r :
  Add f Null = Ok (f', r) →
  objects f !! r = None ∧ f' = store f r Null.
Proof.
  intros Hadd. apply Add_plain in Hadd as [-> ->]; [|done].
  split; [apply freshRef_fresh|done].
Qed.

Lemma Add_IndirectObject f r o f' r' :
  Add f (IndirectObject r o) = Ok (f', r') →
  r' = r ∧ f' = store f r o.
Proof.
  unfold Add. destruct (addErr f _); [done|]. by intros [= <- <-].
Qed.

Lemma Add_not_Panic f obj msg : Add f obj ≠ Panic msg.
Proof. unfold Add. destruct (addErr f obj); [done|]. by destruct obj. Qed.

Lemma Add_Err f obj e : Add f obj = Err e → addErr f obj = Some e.
Proof.
  unfold Add. destruct (addErr f obj); [congruence|]. by destruct obj.
Qed.
End store.

Lemma Get_store f r o r' :
  Get (store f r o) r' = if decide (r = r') then o else Get f r'.
Proof. unfold Get, store. simpl. rewrite lookup_insert. by case_decide. Qed.

(** ** Go [int] arithmetic *)

Lemma wrapInt_range x : - 2 ^ 63 ≤ wrapInt x < 2 ^ 63.
Proof.
  unfold wrapInt, intBits.
  pose proof (Z.mod_pos_bound (x + 2 ^ (64 - 1)) (2 ^ 64) ltac:(lia)).
  change (2 ^ (64 - 1)) with (2 ^ 63) in *.
  change (2 ^ 64) with (2 * 2 ^ 63) in *. lia.
Qed.

Lemma wrapInt_small x : - 2 ^ 63 ≤ x < 2 ^ 63 → wrapInt x = x.
Proof.
  intros Hx. unfold wrapInt, intBits.
  change (2 ^ (64 - 1)) with (2 ^ 63).
  rewrite Z.mod_small; [lia|].
  change (2 ^ 64) with (2 * 2 ^ 63). lia.
Qed.

Lemma wrapInt_add_l x y : wrapInt (wrapInt x + y) = wrapInt (x + y).
Proof.
  unfold wrapInt, intBits. f_equal.
  replace ((x + 2 ^ (64 - 1)) mod 2 ^ 64 - 2 ^ (64 - 1) + y + 2 ^ (64 - 1))
    with ((x + 2 ^ (64 - 1)) mod 2 ^ 64 + y) by lia.
  rewrite Zplus_mod_idemp_l. f_equal. lia.
Qed.

(** ** Dictionaries *)

Lemma dictGet_dictSet_eq d k v : dictGet (dictSet d k v) k = Some v.
Proof.
  induction d as [|[k' v'] d IH]; simpl.
  - by rewrite decide_True.
  - destruct (decide (k' = k)) as [->|Hne]; simpl.
    + by rewrite decide_True.
    + by rewrite decide_False.
Qed.

Lemma dictGet_dictSet_ne d k v k' :
  k ≠ k' → dictGet (dictSet d k v) k' = dictGet d k'.
Proof.
  intros Hne. induction d as [|[k0 v0] d IH]; simpl.
  - by rewrite decide_False.
  - destruct (decide (k0 = k)) as [->|Hne0]; simpl.
    + by rewrite !decide_False.
    + destruct (decide (k0 = k')); [done|apply IH].
Qed.

Lemma dictSet_keys d k v :
  dictGet d k ≠ None → (dictSet d k v).*1 = d.*1.
Proof.
  induction d as [|[k0 v0] d IH]; simpl; [done|].
  destruct (decide (k0 = k)) as [->|Hne]; simpl; [done|].
  intros Hd. f_equal. by apply IH.
Qed.

(** ** Sequencing *)

Lemma fbind_Ok {A B} (m : option (result A)) (k : A → option (result B)) b :
  fbind m k = Some (Ok b) → ∃ a, m = Some (Ok a) ∧ k a = Some (Ok b).
Proof. destruct m as [[a| |]|]; unfold fbind; try done. eauto. Qed.

Lemma fbind_Some {A B} (m : option (result A)) (k : A → option (result B)) :
  is_Some m → (∀ a, m = Some (Ok a) → is_Some (k a)) → is_Some (fbind m k).
Proof. intros [[a| |] ->] Hk; unfold fbind; eauto. Qed.

Lemma rbind_Ok {A B} (m : result A) (k : A → result B) b :
  rbind m k = Ok b → ∃ a, m = Ok a ∧ k a = Ok b.
Proof. destruct m as [a| |]; unfold rbind; try done. eauto. Qed.

(** ** The copy pass relation *)

Lemma merge_same refs : merge refs refs = refs.
Proof. unfold merge. apply (idemp_L (∪)). Qed.

Lemma pass_refl refs dst : pass refs dst refs dst.
Proof.
  split; try done.
  - intros t r Hr Hn. congruence.
  - intros t1 t2 r Hr. congruence.
Qed.

Lemma pass_trans refs0 dst0 refs1 dst1 refs2 dst2 :
  pass refs0 dst0 refs1 dst1 → pass refs1 dst1 refs2 dst2 →
  pass refs0 dst0 refs2 dst2.
Proof.
  intros [Hr1 Hf1 Ho1 Hn1 Hi1 Hc1] [Hr2 Hf2 Ho2 Hn2 Hi2 Hc2].
  assert (Hkeep : ∀ t r, refs1 !! t = Some r → refs2 !! t = Some r).
  { intros t r Ht. by eapply lookup_weaken. }
  assert (Hgone : ∀ r, objects dst1 !! r = None → objects dst0 !! r = None).
  { intros r Hr. destruct (objects dst0 !! r) as [o|] eqn:Ho; [|done].
    apply Hf1 in Ho. congruence. }
  split.
  - by etrans.
  - eauto.
  - congruence.
  - intros t r Hr Hn. destruct (refs1 !! t) as [r1|] eqn:Ht1.
    + pose proof (Hkeep _ _ Ht1). simplify_eq.
      destruct (Hn1 _ _ Ht1 Hn) as [? [o Ho]]. eauto.
    + destruct (Hn2 _ _ Hr Ht1) as [? ?]. eauto.
  - intros t1 t2 r H1 H2 Hn1' Hn2'.
    destruct (refs1 !! t1) as [r1|] eqn:Ht1, (refs1 !! t2) as [r2|] eqn:Ht2.
    + pose proof (Hkeep _ _ Ht1). pose proof (Hkeep _ _ Ht2). simplify_eq.
      eauto.
    + pose proof (Hkeep _ _ Ht1). simplify_eq.
      destruct (Hn1 _ _ Ht1 Hn1') as [_ [o Ho]].
      destruct (Hn2 _ _ H2 Ht2) as [? _]. congruence.
    + pose proof (Hkeep _ _ Ht2). simplify_eq.
      destruct (Hn1 _ _ Ht2 Hn2') as [_ [o Ho]].
      destruct (Hn2 _ _ H1 Ht1) as [? _]. congruence.
    + eauto.
  - lia.
Qed.

(** Reserving a placeholder for a reference that is not in the table. *)
Lemma pass_reserve refs dst t r :
  refs !! t = None → objects dst !! r = None →
  pass refs dst (<[t := r]> refs) (store dst r Null).
Proof.
  intros Ht Hr. split; simpl.
  - by apply insert_subseteq.
  - intros r' o Ho. rewrite lookup_insert_ne; [done|congruence].
  - done.
  - intros t' r' Hr' Hn. destruct (decide (t = t')) as [->|Hne].
    + rewrite lookup_insert_eq in Hr'. simplify_eq.
      rewrite lookup_insert_eq. eauto.
    + rewrite lookup_insert_ne in Hr' by done. congruence.
  - intros t1 t2 r' H1 H2 Hn1 Hn2.
    destruct (decide (t = t1)) as [E1|E1], (decide (t = t2)) as [E2|E2];
      [congruence| | |].
    + rewrite lookup_insert_ne in H2 by done. congruence.
    + rewrite lookup_insert_ne in H1 by done. congruence.
    + rewrite lookup_insert_ne in H1 by done. congruence.
  - rewrite !map_size_insert_None by done. lia.
Qed.

(** Filling a slot that did not exist before the pass. *)
Lemma pass_fill refs dst refs' dst' r o :
  pass refs dst refs' dst' →
  objects dst !! r = None → is_Some (objects dst' !! r) →
  pass refs dst refs' (store dst' r o).
Proof.
  intros [Hr Hf Ho Hn Hi Hc] Hnew [o' Hold]. split; simpl; try done.
  - intros r' x Hx. rewrite lookup_insert_ne; [eauto|congruence].
  - intros t r' Hr' Ht. destruct (Hn _ _ Hr' Ht) as [? ?]. split; [done|].
    rewrite lookup_insert. case_decide; eauto.
  - by rewrite map_size_insert_Some.
Qed.

(** ** The graph copy engine *)

Section copy.
Context `{Collaborators} (src : File).

Lemma copyEntries_pass copy :
  (∀ refs dst v refs' dst' o,
     copy refs dst v = Some (Ok (refs', dst', o)) → pass refs dst refs' dst') →
  ∀ t refs dst refs' dst' t',
    copyEntries copy refs dst t = Some (Ok (refs', dst', t')) →
    pass refs dst refs' dst'.
Proof.
  intros Hcopy t. induction t as [|[k v] t IH]; intros refs dst refs' dst' t' Hrun.
  - simpl in Hrun. simplify_eq. apply pass_refl.
  - simpl in Hrun.
    apply fbind_Ok in Hrun as ([[newRefs dst1] v'] & Hv & Hrun).
    cbv zeta in Hrun. rewrite merge_same in Hrun.
    apply fbind_Ok in Hrun as ([[refs2 dst2] t''] & Ht & Hrun).
    simplify_eq. eapply pass_trans; eauto.
Qed.

Lemma copyElements_pass copy :
  (∀ refs dst v refs' dst' o,
     copy refs dst v = Some (Ok (refs', dst', o)) → pass refs dst refs' dst') →
  ∀ t refs dst refs' dst' t',
    copyElements copy refs dst t = Some (Ok (refs', dst', t')) →
    pass refs dst refs' dst'.
Proof.
  intros Hcopy t. induction t as [|v t IH]; intros refs dst refs' dst' t' Hrun.
  - simpl in Hrun. simplify_eq. apply pass_refl.
  - simpl in Hrun.
    apply fbind_Ok in Hrun as ([[newRefs dst1] v'] & Hv & Hrun).
    cbv zeta in Hrun. rewrite merge_same in Hrun.
    apply fbind_Ok in Hrun as ([[refs2 dst2] t''] & Ht & Hrun).
    simplify_eq. eapply pass_trans; eauto.
Qed.

(** The step of [copyReferencedObjects] at a reference that is not yet
    in the table, spelled out: placeholder, registration, recursion,
    overwrite of the placeholder. *)
Lemma copy_Ref_inv budget refs dst t refs' dst' o :
  refs !! t = None →
  copyReferencedObjects budget refs dst src (Ref t) = Some (Ok (refs', dst', o)) →
  ∃ budget' ref newRefs dst2 newObj,
    budget = S budget' ∧
    objects dst !! ref = None ∧
    Add dst Null = Ok (store dst ref Null, ref) ∧
    copyReferencedObjects budget' (<[t := ref]> refs) (store dst ref Null)
                          src (Get src t)
      = Some (Ok (newRefs, dst2, newObj)) ∧
    Add dst2 (IndirectObject ref newObj) = Ok (dst', ref) ∧
    dst' = store dst2 ref newObj ∧
    refs' = <[t := ref]> newRefs ∧
    o = Ref ref.
Proof.
  intros Ht Hrun. destruct budget as [|budget']; simpl in Hrun;
    rewrite Ht in Hrun; [done|].
  apply fbind_Ok in Hrun as ([dst1 ref] & Hadd & Hrun).
  apply fbind_Ok in Hrun as ([[newRefs dst2] newObj] & Hrec & Hrun).
  cbv zeta in Hrun. rewrite merge_same in Hrun.
  apply fbind_Ok in Hrun as ([dst3 ref'] & Hadd' & Hrun).
  simplify_eq.
  destruct (Add_Null _ _ _ Hadd) as [Hfresh ->].
  destruct (Add_IndirectObject _ _ _ _ _ Hadd') as [-> ->].
  exists budget', ref, newRefs, dst2, newObj.
  by rewrite Hadd, Hadd'.
Qed.

(** Every successful call of the copy engine is a copy pass. *)
Lemma copy_pass budget :
  ∀ refs dst obj refs' dst' o,
    copyReferencedObjects budget refs dst src obj = Some (Ok (refs', dst', o)) →
    pass refs dst refs' dst'.
Proof.
  induction budget as [|budget IH]; intros refs dst obj refs' dst' o Hrun.
  - destruct obj; simpl in Hrun; simplify_eq; try apply pass_refl.
    destruct (refs !! r); simplify_eq. apply pass_refl.
  - destruct obj; try (simpl in Hrun; simplify_eq; apply pass_refl).
    + simpl in Hrun.
      apply fbind_Ok in Hrun as ([[refs1 dst1] t'] & Hloop & Hrun).
      simplify_eq. eapply copyEntries_pass; [|done]. intros ? ? ? ? ? ? Hc. by apply IH in Hc.
    + simpl in Hrun.
      apply fbind_Ok in Hrun as ([[refs1 dst1] t'] & Hloop & Hrun).
      simplify_eq. eapply copyElements_pass; [|done]. intros ? ? ? ? ? ? Hc. by apply IH in Hc.
    + simpl in Hrun.
      apply fbind_Ok in Hrun as ([[refs1 dst1] t'] & Hloop & Hrun).
      simplify_eq. eapply copyEntries_pass; [|done]. intros ? ? ? ? ? ? Hc. by apply IH in Hc.
    + destruct (refs !! r) as [r'|] eqn:Hr.
      { simpl in Hrun. rewrite Hr in Hrun. simplify_eq. apply pass_refl. }
      apply copy_Ref_inv in Hrun
        as (b & ref & newRefs & dst2 & newObj & Hb & Hfresh & _ & Hrec & _
            & -> & -> & _); [|done].
      simplify_eq. apply IH in Hrec.
      assert (Hstep : pass refs dst newRefs dst2).
      { eapply pass_trans; [by apply pass_reserve|done]. }
      assert (Hin : newRefs !! r = Some ref).
      { eapply lookup_weaken; [|apply (pass_refs _ _ _ _ Hrec)].
        apply lookup_insert_eq. }
      rewrite (insert_id _ _ _ Hin).
      apply pass_fill; [done..|].
      exists Null. apply (pass_frame _ _ _ _ Hrec). simpl.
      apply lookup_insert_eq.
Qed.

Lemma copy_Ref_new budget refs dst t refs' dst' o :
  refs !! t = None →
  copyReferencedObjects budget refs dst src (Ref t) = Some (Ok (refs', dst', o)) →
  ∃ budget' ref dst2 newObj,
    budget = S budget' ∧
    objects dst !! ref = None ∧
    Add dst Null = Ok (store dst ref Null, ref) ∧
    copyReferencedObjects budget' (<[t := ref]> refs) (store dst ref Null)
                          src (Get src t)
      = Some (Ok (refs', dst2, newObj)) ∧
    Add dst2 (IndirectObject ref newObj) = Ok (dst', ref) ∧
    dst' = store dst2 ref newObj ∧
    refs' !! t = Some ref ∧
    o = Ref ref.
Proof.
  intros Ht Hrun.
  apply copy_Ref_inv in Hrun
    as (b & ref & newRefs & dst2 & newObj & -> & Hfresh & Hadd & Hrec & Hadd'
        & -> & -> & ->); [|done].
  assert (Hin : newRefs !! t = Some ref).
  { eapply lookup_weaken; [|apply (pass_refs _ _ _ _ (copy_pass _ _ _ _ _ _ _ Hrec))].
    apply lookup_insert_eq. }
  rewrite (insert_id _ _ _ Hin).
  by exists b, ref, dst2, newObj.
Qed.
(** *** The step budget *)

Lemma depth_entry (d : list (string * Object)) k v :
  (k, v) ∈ d → (depth v < depth (Dictionary d))%nat.
Proof.
  induction d as [|[k0 v0] d IH]; intros Hin.
  - by apply not_elem_of_nil in Hin.
  - apply elem_of_cons in Hin as [Heq|Hin].
    + simplify_eq. simpl. lia.
    + specialize (IH Hin). simpl in *. lia.
Qed.

Lemma depth_element (a : list Object) v :
  v ∈ a → (depth v < depth (Array a))%nat.
Proof.
  induction a as [|v0 a IH]; intros Hin.
  - by apply not_elem_of_nil in Hin.
  - apply elem_of_cons in Hin as [Heq|Hin].
    + simplify_eq. simpl. lia.
    + specialize (IH Hin). simpl in *. lia.
Qed.

Lemma maxDepth_ge t o : objects src !! t = Some o → (depth o ≤ maxDepth src)%nat.
Proof.
  unfold maxDepth. revert t o.
  apply (map_fold_weak_ind
           (λ acc (m : gmap ObjectReference Object),
              ∀ t o, m !! t = Some o → (depth o ≤ acc)%nat)).
  - intros t o Ht. by rewrite lookup_empty in Ht.
  - intros i x m acc Hi IH t o Ht.
    destruct (decide (i = t)) as [->|Hne].
    + rewrite lookup_insert_eq in Ht. simplify_eq. lia.
    + rewrite lookup_insert_ne in Ht by done.
      specialize (IH t o Ht). lia.
Qed.

Lemma depth_Get t : (depth (Get src t) ≤ maxDepth src)%nat.
Proof.
  unfold Get. destruct (objects src !! t) as [o|] eqn:Ht; simpl.
  - by eapply maxDepth_ge.
  - lia.
Qed.

Lemma unvisited_mono (refs refs' : gmap ObjectReference ObjectReference) :
  refs ⊆ refs' → (unvisited refs' src ≤ unvisited refs src)%nat.
Proof.
  intros Hsub. unfold unvisited. apply subseteq_size.
  apply subseteq_dom in Hsub. set_solver.
Qed.

Lemma unvisited_insert (refs : gmap ObjectReference ObjectReference) t r o :
  refs !! t = None → objects src !! t = Some o →
  (unvisited (<[t := r]> refs) src < unvisited refs src)%nat.
Proof.
  intros Ht Ho. unfold unvisited. apply subset_size.
  rewrite dom_insert_L.
  assert (t ∈ dom (objects src)) by (apply elem_of_dom; eauto).
  assert (t ∉ dom refs) by by apply not_elem_of_dom.
  set_solver.
Qed.

Lemma copyEntries_enough copy (bound : nat) :
  (∀ refs dst v refs' dst' o,
     copy refs dst v = Some (Ok (refs', dst', o)) → pass refs dst refs' dst') →
  ∀ t,
    (∀ refs dst k v, (k, v) ∈ t → (unvisited refs src ≤ bound)%nat →
                     is_Some (copy refs dst v)) →
    ∀ refs dst, (unvisited refs src ≤ bound)%nat →
                is_Some (copyEntries copy refs dst t).
Proof.
  intros Hpass t. induction t as [|[k v] t IH]; intros Hcopy refs dst Hu.
  - by eexists.
  - simpl. apply fbind_Some.
    + eapply Hcopy; [left|done].
    + intros [[newRefs dst1] v'] Hv. cbv zeta. rewrite merge_same.
      apply Hpass in Hv. apply fbind_Some.
      * apply IH.
        -- intros refs0 dst0 k0 v0 Hin. eapply Hcopy. by right.
        -- pose proof (unvisited_mono _ _ (pass_refs _ _ _ _ Hv)). lia.
      * intros [[refs2 dst2] t''] _. by eexists.
Qed.

Lemma copyElements_enough copy (bound : nat) :
  (∀ refs dst v refs' dst' o,
     copy refs dst v = Some (Ok (refs', dst', o)) → pass refs dst refs' dst') →
  ∀ t,
    (∀ refs dst v, v ∈ t → (unvisited refs src ≤ bound)%nat →
                   is_Some (copy refs dst v)) →
    ∀ refs dst, (unvisited refs src ≤ bound)%nat →
                is_Some (copyElements copy refs dst t).
Proof.
  intros Hpass t. induction t as [|v t IH]; intros Hcopy refs dst Hu.
  - by eexists.
  - simpl. apply fbind_Some.
    + eapply Hcopy; [left|done].
    + intros [[newRefs dst1] v'] Hv. cbv zeta. rewrite merge_same.
      apply Hpass in Hv. apply fbind_Some.
      * apply IH.
        -- intros refs0 dst0 v0 Hin. eapply Hcopy. by right.
        -- pose proof (unvisited_mono _ _ (pass_refs _ _ _ _ Hv)). lia.
      * intros [[refs2 dst2] t''] _. by eexists.
Qed.

(** With [copyBudget] steps the copy engine always returns. *)
Lemma copy_enough budget :
  ∀ refs dst obj,
    (copyBudget refs src obj ≤ budget)%nat →
    is_Some (copyReferencedObjects budget refs dst src obj).
Proof.
  unfold copyBudget.
  induction budget as [|budget IH]; intros refs dst obj Hb; [lia|].
  assert (Hloop : ∀ refs0 dst0 v,
             (depth v < depth obj)%nat →
             (unvisited refs0 src ≤ unvisited refs src)%nat →
             is_Some (copyReferencedObjects budget refs0 dst0 src v)).
  { intros refs0 dst0 v Hv Hu. apply IH.
    assert (unvisited refs0 src * (maxDepth src + 2)
            ≤ unvisited refs src * (maxDepth src + 2))%nat by nia.
    lia. }
  destruct obj; try (by eexists).
  - simpl. apply fbind_Some; [|intros [[? ?] ?] _; by eexists].
    apply (copyEntries_enough _ (unvisited refs src)); [|intros|done].
    + intros ? ? ? ? ? ? Hc. by apply copy_pass in Hc.
    + apply Hloop; [by eapply depth_entry|done].
  - simpl. apply fbind_Some; [|intros [[? ?] ?] _; by eexists].
    apply (copyElements_enough _ (unvisited refs src)); [|intros|done].
    + intros ? ? ? ? ? ? Hc. by apply copy_pass in Hc.
    + apply Hloop; [by eapply depth_element|done].
  - simpl. apply fbind_Some; [|intros [[? ?] ?] _; by eexists].
    apply (copyEntries_enough _ (unvisited refs src)); [|intros|done].
    + intros ? ? ? ? ? ? Hc. by apply copy_pass in Hc.
    + apply Hloop; [|done].
      eapply Nat.lt_le_trans; [by eapply depth_entry|done].
  - simpl. destruct (refs !! r) as [r'|] eqn:Hr; [by eexists|].
    apply fbind_Some; [by eexists|]. intros [dst1 ref] Hadd.
    apply fbind_Some.
    + destruct (objects src !! r) as [o|] eqn:Ho.
      * apply IH.
        pose proof (unvisited_insert refs r ref o Hr Ho).
        pose proof (depth_Get r). simpl in Hb. nia.
      * unfold Get. rewrite Ho. simpl. destruct budget; by eexists.
    + intros [[newRefs dst2] newObj] _. cbv zeta.
      apply fbind_Some; [by eexists|]. intros [dst3 ref'] _. by eexists.
Qed.

Lemma copyEntries_mono (copy copy' :
    gmap ObjectReference ObjectReference → File → Object →
    option (result (gmap ObjectReference ObjectReference * File * Object))) :
  (∀ refs dst v res, copy refs dst v = Some res → copy' refs dst v = Some res) →
  ∀ t refs dst res,
    copyEntries copy refs dst t = Some res →
    copyEntries copy' refs dst t = Some res.
Proof.
  intros Hc t. induction t as [|[k v] t IH]; intros refs dst res; [done|].
  simpl. destruct (copy refs dst v) as [res1|] eqn:Hv; [|done].
  rewrite (Hc _ _ _ _ Hv). destruct res1 as [[[newRefs dst1] v']| |]; [|done..].
  unfold fbind at 1 3. cbv zeta.
  destruct (copyEntries copy _ dst1 t) as [res2|] eqn:Ht; [|done].
  by rewrite (IH _ _ _ Ht).
Qed.

Lemma copyElements_mono (copy copy' :
    gmap ObjectReference ObjectReference → File → Object →
    option (result (gmap ObjectReference ObjectReference * File * Object))) :
  (∀ refs dst v res, copy refs dst v = Some res → copy' refs dst v = Some res) →
  ∀ t refs dst res,
    copyElements copy refs dst t = Some res →
    copyElements copy' refs dst t = Some res.
Proof.
  intros Hc t. induction t as [|v t IH]; intros refs dst res; [done|].
  simpl. destruct (copy refs dst v) as [res1|] eqn:Hv; [|done].
  rewrite (Hc _ _ _ _ Hv). destruct res1 as [[[newRefs dst1] v']| |]; [|done..].
  unfold fbind at 1 3. cbv zeta.
  destruct (copyElements copy _ dst1 t) as [res2|] eqn:Ht; [|done].
  by rewrite (IH _ _ _ Ht).
Qed.

(** A larger budget does not change the answer. *)
Lemma copy_mono budget :
  ∀ budget' refs dst obj res,
    (budget ≤ budget')%nat →
    copyReferencedObjects budget refs dst src obj = Some res →
    copyReferencedObjects budget' refs dst src obj = Some res.
Proof.
  induction budget as [|budget IH]; intros budget' refs dst obj res Hle Hrun.
  - destruct obj; simpl in Hrun; try done; destruct budget'; try done.
    simpl. by destruct (refs !! r).
  - destruct budget' as [|budget']; [lia|].
    assert (Hrec : ∀ refs0 dst0 v res0,
               copyReferencedObjects budget refs0 dst0 src v = Some res0 →
               copyReferencedObjects budget' refs0 dst0 src v = Some res0).
    { intros. apply (IH budget'); [lia|done]. }
    destruct obj; try done; simpl in *.
    + destruct (copyEntries _ refs dst d) as [res1|] eqn:Hl; [|done].
      by rewrite (copyEntries_mono _ _ Hrec _ _ _ _ Hl).
    + destruct (copyElements _ refs dst a) as [res1|] eqn:Hl; [|done].
      by rewrite (copyElements_mono _ _ Hrec _ _ _ _ Hl).
    + destruct (copyEntries _ refs dst d) as [res1|] eqn:Hl; [|done].
      by rewrite (copyEntries_mono _ _ Hrec _ _ _ _ Hl).
    + destruct (refs !! r); [done|].
      destruct (Add dst Null) as [[dst1 ref]| |]; [|done..].
      unfold fbind at 1 in Hrun. unfold fbind at 1.
      destruct (copyReferencedObjects budget _ dst1 src _) as [res1|] eqn:Hc;
        [|done].
      by rewrite (Hrec _ _ _ _ Hc).
Qed.
End copy.

Lemma pass_new_slots refs dst refs' dst' :
  pass refs dst refs' dst' →
  size (dom (objects dst') ∖ dom (objects dst)) = size (dom refs' ∖ dom refs).
Proof.
  intros [Hr Hf _ _ _ Hc].
  assert (dom (objects dst) ⊆ dom (objects dst')).
  { intros r [o Ho]%elem_of_dom. apply elem_of_dom. eauto. }
  rewrite !size_difference by (done || by apply subseteq_dom).
  rewrite !size_dom. lia.
Qed.

(** C1.  A reference that is already in the translation table is
    answered at once: whatever the budget (so without a recursive call),
    [copyReferencedObjects] returns the mapped destination reference and
    leaves the table and the destination as they are.  Consequently, in
    any copy started from that table the reference keeps its mapping, no
    old slot changes, and the new slots of the destination are in
    one-to-one correspondence with the source references that entered
    the table: one copied object per distinct source reference. *)
Theorem copy_known_reference_once `{Collaborators} budget refs dst src t r :
  refs !! t = Some r →
  copyReferencedObjects budget refs dst src (Ref t) = Some (Ok (refs, dst, Ref r))
  ∧ ∀ budget' obj refs' dst' o,
      copyReferencedObjects budget' refs dst src obj = Some (Ok (refs', dst', o)) →
      refs' !! t = Some r
      ∧ pass refs dst refs' dst'
      ∧ size (dom (objects dst') ∖ dom (objects dst))
        = size (dom refs' ∖ dom refs).
Proof.
  intros Ht. split.
  - destruct budget; simpl; by rewrite Ht.
  - intros budget' obj refs' dst' o Hrun.
    apply copy_pass in Hrun. split_and!; [|done|by apply pass_new_slots].
    eapply lookup_weaken; [done|apply Hrun].
Qed.

(** C2.  [copyReferencedObjects] returns on every finite source
    document, cyclic or not: [copyBudget] steps are enough, and any
    larger budget gives the same answer.  The reason is the order of the
    steps at a reference that is not in the table: a placeholder is added
    to the destination, the mapping to the placeholder is recorded, only
    then the referenced object is copied, and finally the placeholder's
    own slot is overwritten with the copy. *)
Theorem copyReferencedObjects_budget `{Collaborators} budget refs dst src obj :
  (copyBudget refs src obj ≤ budget)%nat →
  ∃ res,
    copyReferencedObjects budget refs dst src obj = Some res
    ∧ copyReferencedObjects (copyBudget refs src obj) refs dst src obj = Some res
    ∧ ∀ t refs' dst' o,
        obj = Ref t → refs !! t = None → res = Ok (refs', dst', o) →
        ∃ budget' ref dst2 newObj,
          objects dst !! ref = None
          ∧ Add dst Null = Ok (store dst ref Null, ref)
          ∧ copyReferencedObjects budget' (<[t := ref]> refs)
              (store dst ref Null) src (Get src t)
            = Some (Ok (refs', dst2, newObj))
          ∧ Add dst2 (IndirectObject ref newObj) = Ok (dst', ref)
          ∧ Get dst' ref = newObj
          ∧ refs' !! t = Some ref
          ∧ o = Ref ref.
Proof.
  intros Hb.
  destruct (copy_enough src (copyBudget refs src obj) refs dst obj) as [res Hres];
    [done|].
  exists res. split_and!; [by eapply copy_mono|done|].
  intros t refs' dst' o -> Ht ->.
  apply copy_Ref_new in Hres
    as (b & ref & dst2 & newObj & _ & Hfresh & Hadd & Hrec & Hadd' & -> & Hin & ->);
    [|done].
  exists b, ref, dst2, newObj. split_and!; try done.
  rewrite Get_store. by rewrite decide_True.
Qed.

(** The copy engine as [MergeFiles] calls it always returns. *)
Lemma copyObjects_returns `{Collaborators} refs dst src obj :
  copyReferencedObjects (copyBudget refs src obj) refs dst src obj
  = Some (copyObjects refs dst src obj).
Proof.
  unfold copyObjects.
  by destruct (copy_enough src (copyBudget refs src obj) refs dst obj)
    as [res ->].
Qed.

(** C5.  The null object is one of the object kinds, yet
    [copyReferencedObjects] has no case for it: it falls into [default]
    and the copy fails with the "unhandled" error. *)
Theorem copy_Null_unhandled `{Collaborators} budget refs dst src :
  copyReferencedObjects budget refs dst src Null
  = Some (Err "unhandled pdf.Null").
Proof. by destruct budget. Qed.

(** C9.  The copy of a reference is a reference, so the type assertion
    [root.(pdf.ObjectReference)] in [MergeFiles] does not panic. *)
Theorem copy_Ref_is_Ref `{Collaborators} budget refs dst src t refs' dst' o :
  copyReferencedObjects budget refs dst src (Ref t) = Some (Ok (refs', dst', o)) →
  ∃ r, o = Ref r ∧ refs' !! t = Some r ∧ assertObjectReference (Some o) = Ok r.
Proof.
  intros Hrun. destruct (refs !! t) as [r|] eqn:Ht.
  - destruct budget; simpl in Hrun; rewrite Ht in Hrun; simplify_eq; eauto.
  - apply copy_Ref_new in Hrun
      as (b & ref & dst2 & newObj & _ & _ & _ & _ & _ & _ & Hin & ->); [|done].
    eauto.
Qed.

(** ** The page-tree merger *)

Lemma dictSet_dictSet d k v : dictSet (dictSet d k v) k v = dictSet d k v.
Proof.
  induction d as [|[k0 v0] d IH]; simpl.
  - by rewrite decide_True.
  - destruct (decide (k0 = k)) as [->|Hne]; simpl.
    + by rewrite decide_True.
    + rewrite decide_False by done. by rewrite IH.
Qed.

Lemma Get_Dictionary f r p :
  Get f r = Dictionary p ↔ objects f !! r = Some (Dictionary p).
Proof.
  unfold Get. destruct (objects f !! r); simpl; split; congruence.
Qed.

Lemma fold_intAdd counts a :
  fold_left intAdd counts (wrapInt a) = wrapInt (a + sumZ counts).
Proof.
  revert a. induction counts as [|n counts IH]; intros a; simpl.
  - f_equal. lia.
  - unfold intAdd at 2. rewrite wrapInt_add_l, IH. f_equal. lia.
Qed.

Lemma assertObjectReference_Ok x r :
  assertObjectReference x = Ok r ↔ x = Some (Ref r).
Proof.
  split; [|by intros ->].
  destruct x as [[]|];
    unfold assertObjectReference, assertDictionary, assertInteger,
      conversionPanic; congruence.
Qed.

Lemma assertDictionary_Ok x d :
  assertDictionary x = Ok d ↔ x = Some (Dictionary d).
Proof.
  split; [|by intros ->].
  destruct x as [[]|];
    unfold assertObjectReference, assertDictionary, assertInteger,
      conversionPanic; congruence.
Qed.

Lemma assertInteger_Ok x i : assertInteger x = Ok i ↔ x = Some (Integer i).
Proof.
  split; [|by intros ->].
  destruct x as [[]|];
    unfold assertObjectReference, assertDictionary, assertInteger,
      conversionPanic; congruence.
Qed.

Lemma assertObjectReference_not_Err x e : assertObjectReference x ≠ Err e.
Proof. by destruct x as [[]|]. Qed.

Lemma assertDictionary_not_Err x e : assertDictionary x ≠ Err e.
Proof. by destruct x as [[]|]. Qed.

Lemma assertInteger_not_Err x e : assertInteger x ≠ Err e.
Proof. by destruct x as [[]|]. Qed.

Section merger.
Context `{Collaborators}.

(** One turn of the loop of [mergePageTrees]. *)
Lemma reparentPages_cons root file kids pageCount catalog catalogs res :
  reparentPages root file kids pageCount (catalog :: catalogs) = Ok res →
  ∃ r p n,
    dictGet catalog "Pages" = Some (Ref r)
    ∧ Get file r = Dictionary p
    ∧ dictGet p "Count" = Some (Integer n)
    ∧ reparentPages root
        (store file r (Dictionary (dictSet p "Parent" (Ref root))))
        (kids ++ [Ref r]) (intAdd pageCount n) catalogs = Ok res.
Proof.
  simpl. intros Hrun.
  apply rbind_Ok in Hrun as (r & Hr & Hrun).
  apply rbind_Ok in Hrun as (p & Hp & Hrun). cbv zeta in Hrun.
  apply rbind_Ok in Hrun as ([file1 r'] & Hadd & Hrun).
  apply rbind_Ok in Hrun as (n & Hn & Hrun).
  apply Add_IndirectObject in Hadd as [-> ->].
  apply assertObjectReference_Ok in Hr.
  apply assertDictionary_Ok in Hp. apply assertInteger_Ok in Hn.
  rewrite dictGet_dictSet_ne in Hn by done. simplify_eq.
  by exists r, p, n.
Qed.

Lemma reparentPages_spec root :
  ∀ catalogs file kids pageCount file' kids' pageCount',
    reparentPages root file kids pageCount catalogs
    = Ok (file', kids', pageCount') →
    ∃ refs counts,
      Forall2 (λ c r, dictGet c "Pages" = Some (Ref r)) catalogs refs
      ∧ Forall2 (λ r n, ∃ p, Get file r = Dictionary p
                             ∧ dictGet p "Count" = Some (Integer n))
                refs counts
      ∧ kids' = kids ++ (Ref <$> refs)
      ∧ pageCount' = fold_left intAdd counts pageCount
      ∧ reparented root refs file file'.
Proof.
  induction catalogs as [|catalog catalogs IH];
    intros file kids pageCount file' kids' pageCount' Hrun.
  - simpl in Hrun. simplify_eq. exists [], [].
    split_and!; [constructor|constructor|by rewrite app_nil_r|done|].
    split; [done|]. intros r. rewrite decide_False; [done|].
    apply not_elem_of_nil.
  - apply reparentPages_cons in Hrun as (r0 & p0 & n0 & Hr0 & Hp0 & Hn0 & Hrun).
    apply IH in Hrun as (refs & counts & Hrefs & Hcounts & -> & -> & Hroot & Hfr).
    exists (r0 :: refs), (n0 :: counts).
    split_and!; try done.
    + by constructor.
    + constructor; [by eauto|].
      eapply Forall2_impl; [done|]. intros r n (p & Hp & Hn).
      rewrite Get_store in Hp. case_decide; [|by eauto].
      simplify_eq. exists p0. split; [done|].
      by rewrite dictGet_dictSet_ne in Hn.
    + by rewrite <- app_assoc.
    + split; [done|]. intros r. specialize (Hfr r).
      destruct (decide (r ∈ refs)) as [Hin|Hnin].
      * rewrite decide_True by by right.
        destruct Hfr as (p & Hp & Hr). rewrite Get_store in Hp.
        case_decide; [|by eauto]. simplify_eq.
        exists p0. split; [done|]. by rewrite dictSet_dictSet in Hr.
      * simpl in Hfr. destruct (decide (r = r0)) as [->|Hne].
        -- rewrite decide_True by by left.
           rewrite lookup_insert_eq in Hfr. eauto.
        -- rewrite lookup_insert_ne in Hfr by done.
           rewrite decide_False; [done|].
           intros [?|?]%elem_of_cons; done.
Qed.

(** What a successful [mergePageTrees] has done. *)
Lemma mergePageTrees_spec file catalogs file' root :
  mergePageTrees file catalogs = Ok (file', root) →
  ∃ refs counts,
    Forall2 (λ c r, dictGet c "Pages" = Some (Ref r)) catalogs refs
    ∧ Forall2 (λ r n, ∃ p, Get file r = Dictionary p
                           ∧ dictGet p "Count" = Some (Integer n))
              refs counts
    ∧ objects file !! root = None
    ∧ (root ∉ refs)
    ∧ reparented root refs file
        (mkFile (delete root (objects file')) (Root file'))
    ∧ objects file' !! root
      = Some (Dictionary [("Type", Name "Pages");
                          ("Kids", Array (Ref <$> refs));
                          ("Count", Integer (wrapInt (sumZ counts)))]).
Proof.
  unfold mergePageTrees. intros Hrun.
  apply rbind_Ok in Hrun as ([file0 root0] & Hadd & Hrun).
  apply rbind_Ok in Hrun as ([[file1 kids] pageCount] & Hloop & Hrun).
  apply rbind_Ok in Hrun as ([file2 r2] & Hadd2 & Hrun).
  apply Add_Null in Hadd as [Hfresh ->].
  apply Add_IndirectObject in Hadd2 as [-> ->]. simplify_eq.
  apply reparentPages_spec in Hloop
    as (refs & counts & Hrefs & Hcounts & -> & -> & Hroot & Hfr).
  assert (Hnin : root ∉ refs).
  { intros Hin. specialize (Hfr root). rewrite decide_True in Hfr by done.
    destruct Hfr as (p & Hp & _). rewrite Get_store, decide_True in Hp; done. }
  exists refs, counts. split_and!; try done.
  - eapply Forall2_impl; [done|]. intros r n (p & Hp & Hn).
    rewrite Get_store in Hp. case_decide; [done|]. eauto.
  - split; [done|]. intros r. specialize (Hfr r). simpl.
    destruct (decide (r = root)) as [->|Hne].
    + rewrite decide_False by done. by rewrite lookup_delete_eq.
    + rewrite lookup_delete_ne, lookup_insert_ne by done.
      case_decide.
      * destruct Hfr as (p & Hp & Hr). rewrite Get_store in Hp.
        rewrite decide_False in Hp by done. eauto.
      * simpl in Hfr. by rewrite lookup_insert_ne in Hfr.
  - simpl. rewrite lookup_insert_eq. do 4 f_equal.
    change 0 with (wrapInt 0) at 1. by rewrite fold_intAdd.
Qed.
Lemma panicsOrStoreError_rbind {A B} (m : result A) (k : A → result B) :
  (∀ e, m = Err e → ∃ f o, addErr f o = Some e) →
  (∀ a, m = Ok a → panicsOrStoreError (k a)) →
  panicsOrStoreError (rbind m k).
Proof.
  intros Herr Hok. destruct m as [a|e|msg]; unfold rbind.
  - by apply Hok.
  - destruct (Herr e eq_refl) as (f & o & Hf). right. by exists e, f, o.
  - left. by eexists.
Qed.

(** A catalog that is not well formed stops the loop; reparenting the
    earlier page-tree roots does not repair it, since it keeps the
    [Count] of every dictionary. *)
Lemma reparentPages_failure root :
  ∀ catalogs file0 file kids pageCount,
    (∀ r p, Get file r = Dictionary p →
            ∃ p0, Get file0 r = Dictionary p0
                  ∧ dictGet p0 "Count" = dictGet p "Count") →
    Exists (λ c, ¬ wellFormedCatalog file0 c) catalogs →
    panicsOrStoreError (reparentPages root file kids pageCount catalogs).
Proof.
  induction catalogs as [|catalog catalogs IH];
    intros file0 file kids pageCount Hinv Hbad.
  - by apply Exists_nil in Hbad.
  - simpl. apply panicsOrStoreError_rbind.
    { intros e He. by apply assertObjectReference_not_Err in He. }
    intros r Hr. apply panicsOrStoreError_rbind.
    { intros e He. by apply assertDictionary_not_Err in He. }
    intros p Hp. cbv zeta. apply panicsOrStoreError_rbind.
    { intros e He. apply Add_Err in He. eauto. }
    intros [file1 r'] Hadd. apply panicsOrStoreError_rbind.
    { intros e He. by apply assertInteger_not_Err in He. }
    intros n Hn.
    apply assertObjectReference_Ok in Hr. apply assertDictionary_Ok in Hp.
    apply assertInteger_Ok in Hn. rewrite dictGet_dictSet_ne in Hn by done.
    apply Add_IndirectObject in Hadd as [-> ->]. simplify_eq.
    destruct (Hinv r p) as (p0 & Hp0 & Hcount); [done|].
    apply (IH file0).
    + intros r1 p1. rewrite Get_store. case_decide.
      * intros [= <-]. subst. exists p0. split; [done|].
        by rewrite dictGet_dictSet_ne.
      * apply Hinv.
    + apply Exists_cons in Hbad as [Hbad|Hbad]; [|done].
      destruct Hbad. exists r, p0, n. split_and!; [done..|congruence].
Qed.
End merger.

(** C3 (amended).  On success the new page-tree root holds
    [Type = Pages], [Kids] = the [Pages] references of the catalogs in
    input order (so as many as there are sources), and [Count] = the sum
    of the sources' counts as Go's [int] computes it, wrapping around at
    64 bits; it is the exact sum whenever that sum is an [int].  Every
    kid's [Parent] is the new root. *)
Theorem mergePageTrees_result `{Collaborators} file catalogs file' root :
  mergePageTrees file catalogs = Ok (file', root) →
  ∃ refs counts,
    Forall2 (λ c r, dictGet c "Pages" = Some (Ref r)) catalogs refs
    ∧ Forall2 (λ r n, field (Get file r) "Count" = Some (Integer n)) refs counts
    ∧ length refs = length catalogs
    ∧ Get file' root
      = Dictionary [("Type", Name "Pages");
                    ("Kids", Array (Ref <$> refs));
                    ("Count", Integer (wrapInt (sumZ counts)))]
    ∧ (- 2 ^ 63 ≤ sumZ counts < 2 ^ 63 → wrapInt (sumZ counts) = sumZ counts)
    ∧ Forall (λ r, field (Get file' r) "Parent" = Some (Ref root)) refs.
Proof.
  intros Hrun.
  apply mergePageTrees_spec in Hrun
    as (refs & counts & Hrefs & Hcounts & Hfresh & Hnin & [_ Hfr] & Hroot).
  exists refs, counts. split_and!; try done.
  - eapply Forall2_impl; [done|]. intros r n (p & -> & Hn). done.
  - symmetry. by eapply Forall2_length.
  - by apply Get_Dictionary.
  - apply wrapInt_small.
  - apply Forall_forall. intros r Hin. specialize (Hfr r).
    rewrite decide_True in Hfr by done. destruct Hfr as (p & _ & Hr).
    simpl in Hr. rewrite lookup_delete_ne in Hr by congruence.
    apply Get_Dictionary in Hr. rewrite Hr. simpl.
    apply dictGet_dictSet_eq.
Qed.

(** C4 (amended).  If some catalog has no [Pages] reference, or the
    object behind it is not a dictionary with an integer [Count],
    [mergePageTrees] does not succeed and returns no structural error:
    the unchecked type assertion panics, unless an [Add] of the store
    failed first, whose error is returned as it is. *)
Theorem mergePageTrees_malformed `{Collaborators} file catalogs :
  Exists (λ c, ¬ wellFormedCatalog file c) catalogs →
  panicsOrStoreError (mergePageTrees file catalogs)
  ∧ ∀ file' root, mergePageTrees file catalogs ≠ Ok (file', root).
Proof.
  intros Hbad.
  assert (Hfail : panicsOrStoreError (mergePageTrees file catalogs)).
  { unfold mergePageTrees. apply panicsOrStoreError_rbind.
    { intros e He. apply Add_Err in He. eauto. }
    intros [file0 root] Hadd. apply Add_Null in Hadd as [Hfresh ->].
    assert (Hloop : panicsOrStoreError
                      (reparentPages root (store file root Null) [] 0 catalogs)).
    { apply (reparentPages_failure root catalogs file); [|done].
      intros r p. rewrite Get_store. case_decide; [done|]. eauto. }
    destruct Hloop as [[msg Hp]|(e & f & o & He & Hf)].
    - rewrite Hp. left. by eexists.
    - rewrite He. right. by exists e, f, o. }
  split; [done|]. intros file' root Hok.
  destruct Hfail as [[msg Hp]|(e & f & o & He & _)]; congruence.
Qed.

(** C6.  Copying a later source changes no slot that the destination
    already had.  The page-tree merger then changes, among the slots the
    destination had, only the page-tree roots named by the catalogs; in
    each of them it sets [Parent] to the new root, at the same reference,
    and keeps every other entry; all other old slots are as before. *)
Theorem merge_frame `{Collaborators} budget refs dst src obj refs' dst1 o :
  copyReferencedObjects budget refs dst src obj = Some (Ok (refs', dst1, o)) →
  (∀ r x, objects dst !! r = Some x → objects dst1 !! r = Some x)
  ∧ ∀ catalogs file' root,
      mergePageTrees dst1 catalogs = Ok (file', root) →
      ∃ pagesRefs,
        Forall2 (λ c r, dictGet c "Pages" = Some (Ref r)) catalogs pagesRefs
        ∧ objects dst1 !! root = None
        ∧ ∀ r, r ≠ root →
            if decide (r ∈ pagesRefs)
            then ∃ p p', Get dst1 r = Dictionary p
                         ∧ Get file' r = Dictionary p'
                         ∧ p' = dictSet p "Parent" (Ref root)
                         ∧ dictGet p' "Parent" = Some (Ref root)
                         ∧ ∀ k, k ≠ "Parent" → dictGet p' k = dictGet p k
            else objects file' !! r = objects dst1 !! r.
Proof.
  intros Hcopy. split.
  - apply copy_pass in Hcopy. apply Hcopy.
  - intros catalogs file' root Hrun.
    apply mergePageTrees_spec in Hrun
      as (pagesRefs & counts & Hrefs & _ & Hfresh & _ & [_ Hfr] & _).
    exists pagesRefs. split_and!; [done..|].
    intros r Hne. specialize (Hfr r). simpl in Hfr.
    rewrite lookup_delete_ne in Hfr by done.
    case_decide; [|done].
    destruct Hfr as (p & Hp & Hr). apply Get_Dictionary in Hr.
    exists p, (dictSet p "Parent" (Ref root)).
    split_and!; try done; [apply dictGet_dictSet_eq|].
    intros k Hk. by apply dictGet_dictSet_ne.
Qed.

(** ** The merge orchestrator *)

Lemma mseq_Ok {A B} (m : M A) (k : A → M B) fr b fr' :
  mseq m k fr = (Ok b, fr') →
  ∃ a fr1, m fr = (Ok a, fr1) ∧ k a fr1 = (Ok b, fr').
Proof.
  unfold mseq. destruct (m fr) as [[a|e|msg] fr1]; [eauto|done..].
Qed.

Lemma openedHandles_app tr tr' :
  openedHandles (tr ++ tr') = openedHandles tr ++ openedHandles tr'.
Proof. apply omap_app. Qed.

Lemma closedHandles_app tr tr' :
  closedHandles (tr ++ tr') = closedHandles tr ++ closedHandles tr'.
Proof. apply omap_app. Qed.

Lemma openedHandles_Closed hs : openedHandles (Closed <$> hs) = [].
Proof. induction hs; simpl; done. Qed.

Lemma closedHandles_Closed hs : closedHandles (Closed <$> hs) = hs.
Proof. induction hs; simpl; [done|]. unfold closedHandles in *. simpl. by f_equal. Qed.

Lemma keeps_mret {A} (a : A) : keeps (mret a).
Proof. intros fr res fr' [= <- <-]. done. Qed.

Lemma keeps_mlift {A} (r : result A) : keeps (mlift r).
Proof. intros fr res fr' [= <- <-]. done. Qed.

Lemma keeps_mseq {A B} (m : M A) (k : A → M B) :
  keeps m → (∀ a, keeps (k a)) → keeps (mseq m k).
Proof.
  intros Hm Hk fr res fr'. unfold mseq.
  destruct (m fr) as [[a|e|msg] fr1] eqn:Hrun.
  - intros Hrun' Hfr. eapply Hk; [done|]. by eapply Hm.
  - intros [= <- <-]. by eapply Hm.
  - intros [= <- <-]. by eapply Hm.
Qed.

Lemma keeps_emit e :
  (∀ h fn, e ≠ Opened h fn) → (∀ h, e ≠ Closed h) → keeps (emit e).
Proof.
  intros Ho Hc fr res fr' [= <- <-] [Hopen Hclosed]. split; simpl.
  - rewrite openedHandles_app, Hopen. destruct e; simpl; try apply app_nil_r.
    by destruct (Ho h fn).
  - rewrite closedHandles_app, Hclosed. destruct e; simpl; try done.
    by destruct (Hc h).
Qed.

(** Appending the handle to [closers] and logging its opening. *)
Lemma keeps_register {B} fn (k : nat → M B) :
  (∀ h, keeps (k h)) →
  keeps (mseq register (λ h, mseq (emit (Opened h fn)) (λ _, k h))).
Proof.
  intros Hk fr res fr' Hrun [Hopen Hclosed].
  unfold mseq, register, emit in Hrun. simpl in Hrun.
  eapply Hk; [done|]. split; simpl.
  - rewrite openedHandles_app, Hopen. done.
  - rewrite closedHandles_app, Hclosed. done.
Qed.

Section orchestrator.
Context `{Collaborators}.

Lemma keeps_mergeSource merged roots fn : keeps (mergeSource merged roots fn).
Proof.
  unfold mergeSource. apply keeps_mseq; [apply keeps_mlift|]. intros file.
  apply keeps_register. intros h.
  apply keeps_mseq; [apply keeps_mlift|]. intros [[refs merged'] root].
  apply keeps_mseq; [by apply keeps_emit|]. intros _.
  apply keeps_mseq; [apply keeps_mlift|]. intros root'. apply keeps_mret.
Qed.

Lemma keeps_mergeSources sources :
  ∀ merged roots, keeps (mergeSources merged roots sources).
Proof.
  induction sources as [|fn sources IH]; intros merged roots; simpl.
  - apply keeps_mret.
  - apply keeps_mseq; [apply keeps_mergeSource|]. intros [merged' roots'].
    apply IH.
Qed.

Lemma keeps_mergeBody merged sources : keeps (mergeBody merged sources).
Proof.
  unfold mergeBody.
  apply keeps_mseq; [apply keeps_mergeSources|]. intros [merged' roots].
  apply keeps_mseq; [apply keeps_mlift|]. intros catalogs.
  apply keeps_mseq; [apply keeps_mlift|]. intros [merged'' pageTreeRef].
  apply keeps_mseq; [by apply keeps_emit|]. intros _.
  apply keeps_mseq; [apply keeps_mlift|]. intros [merged3 root]. cbv zeta.
  apply keeps_mseq; [by apply keeps_emit|]. intros _.
  apply keeps_mseq; [apply keeps_mlift|]. intros _.
  apply keeps_mseq; [by apply keeps_emit|]. intros _.
  apply keeps_mret.
Qed.
End orchestrator.

(** C8.  However [MergeFiles] ends (nil, an error of any step, or a
    panic), the handles it closes are exactly the handles it opened, and
    it closes them after everything else it does. *)
Theorem MergeFiles_closes_all `{Collaborators} dest sources :
  closedHandles (trace (MergeFiles dest sources))
  = openedHandles (trace (MergeFiles dest sources))
  ∧ ∃ body,
      trace (MergeFiles dest sources)
      = body ++ (Closed <$> openedHandles (trace (MergeFiles dest sources)))
      ∧ closedHandles body = [].
Proof.
  unfold MergeFiles. destruct (pdfCreate dest) as [merged|e|msg]; simpl.
  2,3: by (split; [|exists []]).
  destruct (mergeBody merged sources (mkFrame [] [Created])) as [res fr] eqn:Hrun.
  destruct (keeps_mergeBody _ _ _ _ _ Hrun) as [Hopen Hclosed]; [by split|].
  simpl. rewrite closedHandles_app, openedHandles_app.
  rewrite closedHandles_Closed, openedHandles_Closed, Hopen, Hclosed, app_nil_r.
  split; [done|]. by exists (events fr).
Qed.

Lemma mlift_Ok {A} (r : result A) fr a fr' :
  mlift r fr = (Ok a, fr') → r = Ok a ∧ fr' = fr.
Proof. by intros [= -> ->]. Qed.

Section orchestrator_success.
Context `{Collaborators}.

Lemma mergeSource_Ok merged roots fn fr res fr' :
  mergeSource merged roots fn fr = (Ok res, fr') →
  events fr' = events fr ++ [Opened (length (closers fr)) fn;
                             Copied (length (closers fr))]
  ∧ closers fr' = closers fr ++ [length (closers fr)].
Proof.
  unfold mergeSource. intros Hrun.
  apply mseq_Ok in Hrun as (file & fr1 & Hopen & Hrun).
  apply mlift_Ok in Hopen as [_ ->].
  apply mseq_Ok in Hrun as (h & fr2 & Hreg & Hrun).
  apply mseq_Ok in Hrun as ([] & fr3 & Hemit & Hrun).
  apply mseq_Ok in Hrun as ([[refs merged'] root] & fr4 & Hcopy & Hrun).
  apply mlift_Ok in Hcopy as [_ ->].
  apply mseq_Ok in Hrun as ([] & fr5 & Hemit' & Hrun).
  apply mseq_Ok in Hrun as (root' & fr6 & Hassert & Hrun).
  apply mlift_Ok in Hassert as [_ ->].
  unfold register, emit, mret in *. simplify_eq. simpl.
  by rewrite <- app_assoc.
Qed.

Lemma mergeSources_Ok sources :
  ∀ merged roots fr res fr',
    mergeSources merged roots sources fr = (Ok res, fr') →
    events fr' = events fr ++ sourceEvents (length (closers fr)) sources
    ∧ closers fr' = closers fr
                    ++ seq (length (closers fr)) (length sources).
Proof.
  induction sources as [|fn sources IH]; intros merged roots fr res fr' Hrun.
  - simpl in Hrun. unfold mret in Hrun. simplify_eq.
    simpl. by rewrite !app_nil_r.
  - simpl in Hrun.
    apply mseq_Ok in Hrun as ([merged' roots'] & fr1 & Hone & Hrun).
    apply mergeSource_Ok in Hone as [Hev Hcl].
    apply IH in Hrun as [-> ->]. rewrite Hev, Hcl.
    rewrite length_app. simpl.
    replace (length (closers fr) + 1)%nat with (S (length (closers fr))) by lia.
    by rewrite <- !app_assoc.
Qed.

Lemma mergeBody_Ok merged sources fr saved fr' :
  mergeBody merged sources fr = (Ok saved, fr') →
  events fr' = events fr ++ sourceEvents (length (closers fr)) sources
               ++ [PageTreesMerged; CatalogInstalled; Saved]
  ∧ closers fr' = closers fr ++ seq (length (closers fr)) (length sources).
Proof.
  unfold mergeBody. intros Hrun.
  apply mseq_Ok in Hrun as ([merged' roots] & fr1 & Hloop & Hrun).
  apply mergeSources_Ok in Hloop as [Hev Hcl].
  apply mseq_Ok in Hrun as (catalogs & fr2 & Hcat & Hrun).
  apply mlift_Ok in Hcat as [_ ->].
  apply mseq_Ok in Hrun as ([merged'' pageTreeRef] & fr3 & Hpt & Hrun).
  apply mlift_Ok in Hpt as [_ ->].
  apply mseq_Ok in Hrun as ([] & fr4 & Hemit1 & Hrun).
  apply mseq_Ok in Hrun as ([merged3 root] & fr5 & Hadd & Hrun).
  apply mlift_Ok in Hadd as [_ ->]. cbv zeta in Hrun.
  apply mseq_Ok in Hrun as ([] & fr6 & Hemit2 & Hrun).
  apply mseq_Ok in Hrun as ([] & fr7 & Hsave & Hrun).
  apply mlift_Ok in Hsave as [_ ->].
  apply mseq_Ok in Hrun as ([] & fr8 & Hemit3 & Hrun).
  unfold emit, mret in *. simplify_eq. simpl.
  rewrite Hev, Hcl. by rewrite <- !app_assoc.
Qed.
End orchestrator_success.

(** C7 (amended).  A successful [MergeFiles] goes through: created,
    then for each source in turn opened and copied (a source is opened
    after the sources before it have been copied), then page trees
    merged, catalog installed, saved; the handles are closed last. *)
Theorem MergeFiles_order `{Collaborators} dest sources saved :
  outcome (MergeFiles dest sources) = Ok saved →
  trace (MergeFiles dest sources)
  = Created :: sourceEvents 0 sources
    ++ [PageTreesMerged; CatalogInstalled; Saved]
    ++ (Closed <$> seq 0 (length sources)).
Proof.
  unfold MergeFiles. destruct (pdfCreate dest) as [merged|e|msg]; [|done..].
  destruct (mergeBody merged sources (mkFrame [] [Created])) as [res fr] eqn:Hrun.
  simpl. intros ->. apply mergeBody_Ok in Hrun as [-> ->]. simpl.
  by rewrite <- !app_assoc.
Qed.

(** C10.  With no source and a store that does not fail, [MergeFiles]
    succeeds, and the saved document's root is a catalog whose [Pages]
    refers to an empty page tree. *)
Theorem MergeFiles_no_sources `{Collaborators} dest created :
  pdfCreate dest = Ok created →
  (∀ f o, addErr f o = None) →
  (∀ f, saveErr f = None) →
  ∃ saved pages,
    outcome (MergeFiles dest []) = Ok saved
    ∧ Get saved (Root saved)
      = Dictionary [("Type", Name "Catalog"); ("Pages", Ref pages)]
    ∧ Get saved pages
      = Dictionary [("Type", Name "Pages"); ("Kids", Array []);
                    ("Count", Integer 0)]
    ∧ trace (MergeFiles dest [])
      = [Created; PageTreesMerged; CatalogInstalled; Saved].
Proof.
  intros Hcreate Hadd Hsave.
  unfold MergeFiles. rewrite Hcreate.
  unfold mergeBody, mergePageTrees, mseq, mlift, mret, emit, rbind, Add. simpl.
  rewrite !Hadd, Hsave. simpl.
  set (pagesTree := Dictionary [("Type", Name "Pages"); ("Kids", Array []);
                                ("Count", Integer 0)]).
  set (merged := store (store created (freshRef created) Null)
                       (freshRef created) pagesTree).
  eexists _, (freshRef created). split_and!; [done| | |done].
  - unfold Get, setRoot. simpl. by rewrite lookup_insert_eq.
  - unfold Get, setRoot. simpl.
    rewrite lookup_insert_ne; [by rewrite lookup_insert_eq|].
    intros Heq. pose proof (freshRef_fresh merged) as Hfresh.
    rewrite Heq in Hfresh. simpl in Hfresh.
    by rewrite lookup_insert_eq in Hfresh.
Qed.

(** * The properties at concrete documents *)

(** A source whose catalog has a null entry cannot be copied. *)
Example copy_nullEntry_fails :
  copyObjects (H:=disk) ∅ emptyFile nullEntry (Ref (Root nullEntry))
  = Err "unhandled pdf.Null".
Proof. vm_compute. reflexivity. Qed.

(** A source whose root dictionary has no [Pages] makes [MergeFiles]
    panic; the deferred function still closes both handles. *)
Example MergeFiles_nopages_panics :
  outcome (MergeFiles (H:=disk) "out.pdf" ["a.pdf"; "nopages.pdf"])
  = Panic "interface conversion: pdf.Object is nil, not pdf.ObjectReference"
  ∧ trace (MergeFiles (H:=disk) "out.pdf" ["a.pdf"; "nopages.pdf"])
    = [Created; Opened 0 "a.pdf"; Copied 0; Opened 1 "nopages.pdf"; Copied 1;
       Closed 0; Closed 1].
Proof. split; vm_compute; reflexivity. Qed.

(** Counterexample to C3 as stated: two page trees with counts
    [2^63 - 1] and [1] merge into a root whose [Count] is [-2^63], not
    the sum [2^63]. *)
Lemma mergePageTrees_count_wraps :
  ∃ file' root,
    mergePageTrees (H:=disk) hugeCount
      [[("Pages", Ref (ref 1))]; [("Pages", Ref (ref 2))]] = Ok (file', root)
    ∧ field (Get hugeCount (ref 1)) "Count" = Some (Integer 9223372036854775807)
    ∧ field (Get hugeCount (ref 2)) "Count" = Some (Integer 1)
    ∧ field (Get file' root) "Count" = Some (Integer (-9223372036854775808))
    ∧ field (Get file' root) "Count" ≠ Some (Integer (9223372036854775807 + 1)).
Proof.
  eexists _, _. split; [vm_compute; reflexivity|].
  split_and!; vm_compute; congruence.
Qed.

(** Counterexample to C4 as stated: for a catalog without [Pages] the
    merger panics; it returns no error. *)
Lemma mergePageTrees_panics_without_Pages :
  mergePageTrees (H:=disk) emptyFile [[("Type", Name "Catalog")]]
  = Panic "interface conversion: pdf.Object is nil, not pdf.ObjectReference"
  ∧ ¬ ∃ e, mergePageTrees (H:=disk) emptyFile [[("Type", Name "Catalog")]]
           = Err e.
Proof.
  assert (Hrun : mergePageTrees (H:=disk) emptyFile [[("Type", Name "Catalog")]]
                 = Panic "interface conversion: pdf.Object is nil, not pdf.ObjectReference")
    by (vm_compute; reflexivity).
  split; [done|]. intros [e He]. congruence.
Qed.

(** Counterexample to C7 as stated: with two sources the second one is
    opened after the first one has been copied. *)
Lemma MergeFiles_opens_between_copies :
  (∃ saved, outcome (MergeFiles (H:=disk) "out.pdf" ["a.pdf"; "b.pdf"])
            = Ok saved)
  ∧ trace (MergeFiles (H:=disk) "out.pdf" ["a.pdf"; "b.pdf"])
    = [Created; Opened 0 "a.pdf"; Copied 0; Opened 1 "b.pdf"; Copied 1;
       PageTreesMerged; CatalogInstalled; Saved; Closed 0; Closed 1]
  ∧ ¬ opensBeforeCopies
        (trace (MergeFiles (H:=disk) "out.pdf" ["a.pdf"; "b.pdf"])).
Proof.
  assert (Htr : trace (MergeFiles (H:=disk) "out.pdf" ["a.pdf"; "b.pdf"])
                = [Created; Opened 0 "a.pdf"; Copied 0; Opened 1 "b.pdf";
                   Copied 1; PageTreesMerged; CatalogInstalled; Saved;
                   Closed 0; Closed 1])
    by (vm_compute; reflexivity).
  split_and!; [eexists; vm_compute; reflexivity|done|].
  rewrite Htr. intros Hall.
  specialize (Hall 3%nat 2%nat 1%nat "b.pdf" 0%nat eq_refl eq_refl). lia.
Qed.

(** C1 at a table that already maps the root of [onePage]. *)
Lemma copy_known_reference_once_witness :
  copyReferencedObjects (H:=disk) 0 {[ref 1 := ref 5]} emptyFile onePage
    (Ref (ref 1))
  = Some (Ok ({[ref 1 := ref 5]}, emptyFile, Ref (ref 5)))
  ∧ ∀ budget' obj refs' dst' o,
      copyReferencedObjects (H:=disk) budget' {[ref 1 := ref 5]} emptyFile
        onePage obj = Some (Ok (refs', dst', o)) →
      refs' !! ref 1 = Some (ref 5)
      ∧ pass {[ref 1 := ref 5]} emptyFile refs' dst'
      ∧ size (dom (objects dst') ∖ dom (objects emptyFile))
        = size (dom refs' ∖ dom ({[ref 1 := ref 5]}
                                  : gmap ObjectReference ObjectReference)).
Proof.
  apply (copy_known_reference_once (H:=disk) 0 {[ref 1 := ref 5]} emptyFile
           onePage (ref 1) (ref 5)).
  vm_compute. reflexivity.
Defined.

(** C2 at the cyclic document [onePage]. *)
Lemma copyReferencedObjects_budget_witness :
  ∃ res,
    copyReferencedObjects (H:=disk) 13 ∅ emptyFile onePage (Ref (ref 1))
    = Some res
    ∧ copyReferencedObjects (H:=disk) (copyBudget ∅ onePage (Ref (ref 1))) ∅
        emptyFile onePage (Ref (ref 1)) = Some res
    ∧ ∀ t refs' dst' o,
        Ref (ref 1) = Ref t →
        (∅ : gmap ObjectReference ObjectReference) !! t = None →
        res = Ok (refs', dst', o) →
        ∃ budget' r dst2 newObj,
          objects emptyFile !! r = None
          ∧ Add (H:=disk) emptyFile Null = Ok (store emptyFile r Null, r)
          ∧ copyReferencedObjects (H:=disk) budget' (<[t := r]> ∅)
              (store emptyFile r Null) onePage (Get onePage t)
            = Some (Ok (refs', dst2, newObj))
          ∧ Add (H:=disk) dst2 (IndirectObject r newObj) = Ok (dst', r)
          ∧ Get dst' r = newObj
          ∧ refs' !! t = Some r
          ∧ o = Ref r.
Proof.
  apply (copyReferencedObjects_budget (H:=disk) 13 ∅ emptyFile onePage
           (Ref (ref 1))).
  vm_compute. lia.
Defined.

(** C9 at the root of [onePage]. *)
Lemma copy_Ref_is_Ref_witness :
  ∃ refs' dst' o,
    copyReferencedObjects (H:=disk) 13 ∅ emptyFile onePage (Ref (ref 1))
    = Some (Ok (refs', dst', o))
    ∧ ∃ r, o = Ref r ∧ refs' !! ref 1 = Some r
           ∧ assertObjectReference (Some o) = Ok r.
Proof.
  eexists _, _, _. split; [vm_compute; reflexivity|].
  eapply (copy_Ref_is_Ref (H:=disk) 13 ∅ emptyFile onePage (ref 1)).
  vm_compute. reflexivity.
Defined.

(** C3 (amended) at the two page trees of [hugeCount]. *)
Lemma mergePageTrees_result_witness :
  ∃ file' root,
    mergePageTrees (H:=disk) hugeCount
      [[("Pages", Ref (ref 1))]; [("Pages", Ref (ref 2))]] = Ok (file', root)
    ∧ ∃ refs counts,
        Forall2 (λ c r, dictGet c "Pages" = Some (Ref r))
          [[("Pages", Ref (ref 1))]; [("Pages", Ref (ref 2))]] refs
        ∧ Forall2 (λ r n, field (Get hugeCount r) "Count" = Some (Integer n))
            refs counts
        ∧ length refs = 2%nat
        ∧ Get file' root
          = Dictionary [("Type", Name "Pages");
                        ("Kids", Array (Ref <$> refs));
                        ("Count", Integer (wrapInt (sumZ counts)))]
        ∧ (- 2 ^ 63 ≤ sumZ counts < 2 ^ 63 → wrapInt (sumZ counts) = sumZ counts)
        ∧ Forall (λ r, field (Get file' r) "Parent" = Some (Ref root)) refs.
Proof.
  eexists _, _. split; [vm_compute; reflexivity|].
  apply (mergePageTrees_result (H:=disk) hugeCount
           [[("Pages", Ref (ref 1))]; [("Pages", Ref (ref 2))]]).
  vm_compute. reflexivity.
Defined.

(** C4 (amended) at a catalog without [Pages]. *)
Lemma mergePageTrees_malformed_witness :
  panicsOrStoreError (H:=disk)
    (mergePageTrees (H:=disk) emptyFile [[("Type", Name "Catalog")]])
  ∧ ∀ file' root,
      mergePageTrees (H:=disk) emptyFile [[("Type", Name "Catalog")]]
      ≠ Ok (file', root).
Proof.
  apply (mergePageTrees_malformed (H:=disk) emptyFile
           [[("Type", Name "Catalog")]]).
  apply Exists_cons_hd. intros (r & p & n & Hr & _). vm_compute in Hr.
  discriminate.
Defined.

(** C6 at a destination that already holds a document. *)
Lemma merge_frame_witness :
  ∃ refs' dst1 o,
    copyReferencedObjects (H:=disk) 13 ∅ onePage onePage (Ref (ref 1))
    = Some (Ok (refs', dst1, o))
    ∧ (∀ r x, objects onePage !! r = Some x → objects dst1 !! r = Some x)
    ∧ ∀ catalogs file' root,
        mergePageTrees (H:=disk) dst1 catalogs = Ok (file', root) →
        ∃ pagesRefs,
          Forall2 (λ c r, dictGet c "Pages" = Some (Ref r)) catalogs pagesRefs
          ∧ objects dst1 !! root = None
          ∧ ∀ r, r ≠ root →
              if decide (r ∈ pagesRefs)
              then ∃ p p', Get dst1 r = Dictionary p
                           ∧ Get file' r = Dictionary p'
                           ∧ p' = dictSet p "Parent" (Ref root)
                           ∧ dictGet p' "Parent" = Some (Ref root)
                           ∧ ∀ k, k ≠ "Parent" → dictGet p' k = dictGet p k
              else objects file' !! r = objects dst1 !! r.
Proof.
  eexists _, _, _. split; [vm_compute; reflexivity|].
  eapply (merge_frame (H:=disk) 13 ∅ onePage onePage (Ref (ref 1))).
  vm_compute. reflexivity.
Defined.

(** C7 (amended) at two sources. *)
Lemma MergeFiles_order_witness :
  ∃ saved,
    outcome (MergeFiles (H:=disk) "out.pdf" ["a.pdf"; "b.pdf"]) = Ok saved
    ∧ trace (MergeFiles (H:=disk) "out.pdf" ["a.pdf"; "b.pdf"])
      = Created :: sourceEvents 0 ["a.pdf"; "b.pdf"]
        ++ [PageTreesMerged; CatalogInstalled; Saved]
        ++ (Closed <$> seq 0 2).
Proof.
  eexists. split; [vm_compute; reflexivity|].
  eapply (MergeFiles_order (H:=disk) "out.pdf" ["a.pdf"; "b.pdf"]).
  vm_compute. reflexivity.
Defined.

(** C10 in the environment [disk]. *)
Lemma MergeFiles_no_sources_witness :
  ∃ saved pages,
    outcome (MergeFiles (H:=disk) "out.pdf" []) = Ok saved
    ∧ Get saved (Root saved)
      = Dictionary [("Type", Name "Catalog"); ("Pages", Ref pages)]
    ∧ Get saved pages
      = Dictionary [("Type", Name "Pages"); ("Kids", Array []);
                    ("Count", Integer 0)]
    ∧ trace (MergeFiles (H:=disk) "out.pdf" [])
      = [Created; PageTreesMerged; CatalogInstalled; Saved].
Proof.
  apply (MergeFiles_no_sources (H:=disk) "out.pdf" emptyFile).
  - reflexivity.
  - intros f o. reflexivity.
  - intros f. reflexivity.
Defined.

(** * Further properties of the merge engine *)

(** Induction on objects, through the lists nested in them. *)
Lemma Object_nested_ind (P : Object → Prop) :
  P Null → (∀ n, P (Name n)) → (∀ i, P (Integer i)) → (∀ b, P (Real b)) →
  (∀ s, P (String s)) →
  (∀ d, Forall (λ e, P e.2) d → P (Dictionary d)) →
  (∀ a, Forall P a → P (Array a)) →
  (∀ d payload, Forall (λ e, P e.2) d → P (Stream d payload)) →
  (∀ r, P (Ref r)) →
  (∀ r o, P o → P (IndirectObject r o)) →
  ∀ o, P o.
Proof.
  intros HNull HName HInteger HReal HString HDict HArray HStream HRef HInd.
  fix IH 1. intros [|n|i|b|s|d|a|d payload|r|r o].
  - exact HNull.
  - apply HName.
  - apply HInteger.
  - apply HReal.
  - apply HString.
  - apply HDict. induction d as [|[k v] d IHd]; constructor; [apply IH|exact IHd].
  - apply HArray. induction a as [|v a IHa]; constructor; [apply IH|exact IHa].
  - apply HStream. induction d as [|[k v] d IHd]; constructor; [apply IH|exact IHd].
  - apply HRef.
  - apply HInd, IH.
Qed.

Lemma refsOf_entry (d : list (string * Object)) k v t :
  (k, v) ∈ d → t ∈ refsOf v → t ∈ d ≫= (λ e, refsOf e.2).
Proof. intros Hin Ht. apply list_elem_of_bind. by exists (k, v). Qed.

(** A larger table translates an object whose references were all
    mapped in the same way. *)
Lemma translate_mono (refs refs' : gmap ObjectReference ObjectReference) o :
  refs ⊆ refs' →
  (∀ t, t ∈ refsOf o → is_Some (refs !! t)) →
  translate refs' o = translate refs o.
Proof.
  intros Hsub. induction o as [| | | | |d IH|a IH|d payload IH|r|r o IH]
    using Object_nested_ind; intros Hclosed; try done.
  - simpl. f_equal. apply list_fmap_ext.
    intros i [k v] Hi. f_equal.
    eapply (Forall_lookup_1 _ _ _ _ IH) in Hi as Hv. simpl in *. apply Hv.
    intros t Ht. apply Hclosed. simpl.
    eapply refsOf_entry; [|done]. by eapply list_elem_of_lookup_2.
  - simpl. f_equal. apply list_fmap_ext.
    intros i v Hi.
    eapply (Forall_lookup_1 _ _ _ _ IH) in Hi as Hv. apply Hv.
    intros t Ht. apply Hclosed. simpl. apply list_elem_of_bind.
    exists v. split; [done|]. by eapply list_elem_of_lookup_2.
  - simpl. f_equal. apply list_fmap_ext.
    intros i [k v] Hi. f_equal.
    eapply (Forall_lookup_1 _ _ _ _ IH) in Hi as Hv. simpl in *. apply Hv.
    intros t Ht. apply Hclosed. simpl.
    eapply refsOf_entry; [|done]. by eapply list_elem_of_lookup_2.
  - simpl. destruct (Hclosed r) as [x Hx]; [simpl; by left|].
    rewrite Hx. by rewrite (lookup_weaken _ _ _ _ Hx Hsub).
Qed.

Lemma copied_refl src refs dst : copied src refs refs dst.
Proof. intros t r Hr Hn. congruence. Qed.

Lemma copied_trans src refs0 dst0 refs1 dst1 refs2 dst2 :
  pass refs0 dst0 refs1 dst1 → pass refs1 dst1 refs2 dst2 →
  copied src refs0 refs1 dst1 → copied src refs1 refs2 dst2 →
  copied src refs0 refs2 dst2.
Proof.
  intros Hp1 Hp2 Hc1 Hc2 t r Hr Hn.
  destruct (refs1 !! t) as [r1|] eqn:Ht1; [|by apply Hc2].
  pose proof (lookup_weaken _ _ _ _ Ht1 (pass_refs _ _ _ _ Hp2)) as Hr2.
  simplify_eq. destruct (Hc1 _ _ Ht1 Hn) as [Hclosed Hget]. split.
  - intros t' Ht'. destruct (Hclosed t' Ht') as [x Hx].
    exists x. by eapply lookup_weaken; [|apply Hp2].
  - rewrite (translate_mono refs1 refs2) by (done || apply Hp2).
    rewrite <- Hget.
    destruct (pass_fresh _ _ _ _ Hp1 _ _ Ht1 Hn) as [_ [x Hx]].
    unfold Get. by rewrite (pass_frame _ _ _ _ Hp2 _ _ Hx), Hx.
Qed.

(** Overwriting the placeholder of [t] with the copy of its object. *)
Lemma copied_finish src refs dst t ref newRefs dst2 :
  refs !! t = None →
  pass (<[t := ref]> refs) (store dst ref Null) newRefs dst2 →
  copied src (<[t := ref]> refs) newRefs dst2 →
  (∀ t', t' ∈ refsOf (Get src t) → is_Some (newRefs !! t')) →
  copied src refs newRefs (store dst2 ref (translate newRefs (Get src t))).
Proof.
  intros Ht Hp Hc Hclosed t' r' Hr' Hn.
  assert (Hin : newRefs !! t = Some ref).
  { eapply lookup_weaken; [apply lookup_insert_eq|apply Hp]. }
  destruct (decide (t' = t)) as [->|Hne].
  - simplify_eq. split; [done|]. rewrite Get_store. by rewrite decide_True.
  - assert (Hn1 : <[t := ref]> refs !! t' = None)
      by by rewrite lookup_insert_ne.
    destruct (Hc _ _ Hr' Hn1) as [Hcl Hget]. split; [done|].
    destruct (pass_fresh _ _ _ _ Hp _ _ Hr' Hn1) as [Hfresh _].
    rewrite Get_store. rewrite decide_False; [done|].
    intros <-. simpl in Hfresh. by rewrite lookup_insert_eq in Hfresh.
Qed.

Section translation.
Context `{Collaborators} (src : File).

Lemma copyEntries_translates copy :
  (∀ refs dst v refs' dst' o,
     copy refs dst v = Some (Ok (refs', dst', o)) →
     pass refs dst refs' dst'
     ∧ (∀ t, t ∈ refsOf v → is_Some (refs' !! t))
     ∧ o = translate refs' v
     ∧ copied src refs refs' dst') →
  ∀ t refs dst refs' dst' t',
    copyEntries copy refs dst t = Some (Ok (refs', dst', t')) →
    pass refs dst refs' dst'
    ∧ (∀ x, x ∈ t ≫= (λ e, refsOf e.2) → is_Some (refs' !! x))
    ∧ t' = (λ e, (e.1, translate refs' e.2)) <$> t
    ∧ copied src refs refs' dst'.
Proof.
  intros Hcopy t. induction t as [|[k v] t IH]; intros refs dst refs' dst' t' Hrun.
  - simpl in Hrun. simplify_eq. split_and!; [apply pass_refl| |done|apply copied_refl].
    intros x Hx. by apply not_elem_of_nil in Hx.
  - simpl in Hrun.
    apply fbind_Ok in Hrun as ([[newRefs dst1] v'] & Hv & Hrun).
    cbv zeta in Hrun. rewrite merge_same in Hrun.
    apply fbind_Ok in Hrun as ([[refs2 dst2] t''] & Ht & Hrun).
    simplify_eq.
    apply Hcopy in Hv as (Hp1 & Hcl1 & -> & Hc1).
    apply IH in Ht as (Hp2 & Hcl2 & -> & Hc2).
    split_and!.
    + by eapply pass_trans.
    + intros x Hx. simpl in Hx. apply elem_of_app in Hx as [Hx|Hx]; [|by apply Hcl2].
      destruct (Hcl1 x Hx) as [y Hy]. exists y.
      by eapply lookup_weaken; [|apply Hp2].
    + simpl. do 2 f_equal. symmetry. apply translate_mono; [apply Hp2|done].
    + by eapply copied_trans.
Qed.

Lemma copyElements_translates copy :
  (∀ refs dst v refs' dst' o,
     copy refs dst v = Some (Ok (refs', dst', o)) →
     pass refs dst refs' dst'
     ∧ (∀ t, t ∈ refsOf v → is_Some (refs' !! t))
     ∧ o = translate refs' v
     ∧ copied src refs refs' dst') →
  ∀ t refs dst refs' dst' t',
    copyElements copy refs dst t = Some (Ok (refs', dst', t')) →
    pass refs dst refs' dst'
    ∧ (∀ x, x ∈ t ≫= refsOf → is_Some (refs' !! x))
    ∧ t' = translate refs' <$> t
    ∧ copied src refs refs' dst'.
Proof.
  intros Hcopy t. induction t as [|v t IH]; intros refs dst refs' dst' t' Hrun.
  - simpl in Hrun. simplify_eq. split_and!; [apply pass_refl| |done|apply copied_refl].
    intros x Hx. by apply not_elem_of_nil in Hx.
  - simpl in Hrun.
    apply fbind_Ok in Hrun as ([[newRefs dst1] v'] & Hv & Hrun).
    cbv zeta in Hrun. rewrite merge_same in Hrun.
    apply fbind_Ok in Hrun as ([[refs2 dst2] t''] & Ht & Hrun).
    simplify_eq.
    apply Hcopy in Hv as (Hp1 & Hcl1 & -> & Hc1).
    apply IH in Ht as (Hp2 & Hcl2 & -> & Hc2).
    split_and!.
    + by eapply pass_trans.
    + intros x Hx. simpl in Hx. apply elem_of_app in Hx as [Hx|Hx]; [|by apply Hcl2].
      destruct (Hcl1 x Hx) as [y Hy]. exists y.
      by eapply lookup_weaken; [|apply Hp2].
    + simpl. f_equal. symmetry. apply translate_mono; [apply Hp2|done].
    + by eapply copied_trans.
Qed.

Lemma copy_translates budget :
  ∀ refs dst obj refs' dst' o,
    copyReferencedObjects budget refs dst src obj = Some (Ok (refs', dst', o)) →
    (∀ t, t ∈ refsOf obj → is_Some (refs' !! t))
    ∧ o = translate refs' obj
    ∧ copied src refs refs' dst'.
Proof.
  induction budget as [|budget IH]; intros refs dst obj refs' dst' o Hrun.
  - destruct obj; simpl in Hrun; simplify_eq;
      try (split_and!; [by intros t Ht; apply not_elem_of_nil in Ht|done|apply copied_refl]).
    destruct (refs !! r) as [r'|] eqn:Hr; simplify_eq. split_and!.
    + intros t Ht. apply list_elem_of_singleton in Ht as ->. eauto.
    + simpl. by rewrite Hr.
    + apply copied_refl.
  - assert (Hcall : ∀ refs0 dst0 v refs0' dst0' o0,
               copyReferencedObjects budget refs0 dst0 src v
               = Some (Ok (refs0', dst0', o0)) →
               pass refs0 dst0 refs0' dst0'
               ∧ (∀ t, t ∈ refsOf v → is_Some (refs0' !! t))
               ∧ o0 = translate refs0' v
               ∧ copied src refs0 refs0' dst0').
    { intros ? ? ? ? ? ? Hc. split; [by eapply copy_pass|by eapply IH]. }
    destruct obj; try (simpl in Hrun; discriminate);
      try (simpl in Hrun; simplify_eq;
           split_and!; [by intros t Ht; apply not_elem_of_nil in Ht|done|apply copied_refl]).
    + simpl in Hrun.
      apply fbind_Ok in Hrun as ([[refs1 dst1] t'] & Hloop & Hrun). simplify_eq.
      apply (copyEntries_translates _ Hcall) in Hloop as (_ & Hcl & -> & Hc).
      done.
    + simpl in Hrun.
      apply fbind_Ok in Hrun as ([[refs1 dst1] t'] & Hloop & Hrun). simplify_eq.
      apply (copyElements_translates _ Hcall) in Hloop as (_ & Hcl & -> & Hc).
      done.
    + simpl in Hrun.
      apply fbind_Ok in Hrun as ([[refs1 dst1] t'] & Hloop & Hrun). simplify_eq.
      apply (copyEntries_translates _ Hcall) in Hloop as (_ & Hcl & -> & Hc).
      done.
    + destruct (refs !! r) as [r'|] eqn:Hr.
      { simpl in Hrun. rewrite Hr in Hrun. simplify_eq. split_and!.
        - intros t Ht. apply list_elem_of_singleton in Ht as ->. eauto.
        - simpl. by rewrite Hr.
        - apply copied_refl. }
      apply copy_Ref_new in Hrun
        as (b & ref & dst2 & newObj & Hb & Hfresh & _ & Hrec & _ & -> & Hin & ->);
        [|done].
      simplify_eq. apply Hcall in Hrec as (Hp & Hcl & -> & Hc). split_and!.
      * intros t Ht. apply list_elem_of_singleton in Ht as ->. eauto.
      * simpl. by rewrite Hin.
      * by apply (copied_finish src refs dst).
Qed.
End translation.

(** X1.  What [copyReferencedObjects] returns is its argument with every
    reference replaced by its image in the returned table: same kinds,
    dictionary keys and their order, array lengths and order, stream
    payloads and leaves; and the table maps every reference that occurs
    in the argument. *)
Theorem copy_result_is_translation `{Collaborators} budget refs dst src obj
    refs' dst' o :
  copyReferencedObjects budget refs dst src obj = Some (Ok (refs', dst', o)) →
  o = translate refs' obj
  ∧ ∀ t, t ∈ refsOf obj → is_Some (refs' !! t).
Proof.
  intros Hrun. apply copy_translates in Hrun as (Hcl & -> & _). done.
Qed.

(** X2.  After the copy of a source started with an empty table, every
    source reference [t] in the table is mapped to a slot [r] that did
    not exist before, that no other source reference is mapped to, and
    that holds the object of [t] with its references translated; all of
    these references are mapped too, so nothing dangles and cycles of the
    source are cycles of the copy. *)
Theorem copy_graph `{Collaborators} budget dst src obj refs' dst' o :
  copyReferencedObjects budget ∅ dst src obj = Some (Ok (refs', dst', o)) →
  ∀ t r, refs' !! t = Some r →
    objects dst !! r = None
    ∧ is_Some (objects dst' !! r)
    ∧ Get dst' r = translate refs' (Get src t)
    ∧ (∀ t', t' ∈ refsOf (Get src t) → is_Some (refs' !! t'))
    ∧ (∀ t2, refs' !! t2 = Some r → t2 = t).
Proof.
  intros Hrun t r Hr.
  pose proof (copy_pass _ _ _ _ _ _ _ _ Hrun) as Hp.
  apply copy_translates in Hrun as (_ & _ & Hc).
  destruct (Hc t r Hr (lookup_empty t)) as [Hcl Hget].
  destruct (pass_fresh _ _ _ _ Hp t r Hr (lookup_empty t)) as [Hnew Hslot].
  split_and!; try done.
  intros t2 Ht2. by eapply (pass_inj _ _ _ _ Hp).
Qed.

(** X3.  A successful [mergePageTrees] adds exactly one slot to the
    document, the new page-tree root, and leaves [Root] alone. *)
Theorem mergePageTrees_one_slot `{Collaborators} file catalogs file' root :
  mergePageTrees file catalogs = Ok (file', root) →
  root ∉ dom (objects file)
  ∧ dom (objects file') = {[root]} ∪ dom (objects file)
  ∧ Root file' = Root file.
Proof.
  intros Hrun.
  apply mergePageTrees_spec in Hrun
    as (refs & counts & _ & _ & Hfresh & Hnin & [Hroot Hfr] & Hnew).
  split_and!; [by apply not_elem_of_dom| |done].
  apply set_eq. intros r. rewrite elem_of_union, elem_of_singleton, !elem_of_dom.
  destruct (decide (r = root)) as [->|Hne].
  - rewrite Hnew. split; eauto.
  - specialize (Hfr r). simpl in Hfr. rewrite lookup_delete_ne in Hfr by done.
    case_decide.
    + destruct Hfr as (p & Hp & ->). apply Get_Dictionary in Hp. rewrite Hp.
      split; [eauto|]. intros _. eauto.
    + rewrite Hfr. split; [eauto|]. by intros [?|?].
Qed.

Lemma getCatalogs_length merged roots catalogs :
  getCatalogs merged roots = Ok catalogs → length catalogs = length roots.
Proof.
  revert catalogs. induction roots as [|root roots IH]; intros catalogs Hrun.
  - simpl in Hrun. by simplify_eq.
  - simpl in Hrun.
    apply rbind_Ok in Hrun as (catalog & _ & Hrun).
    apply rbind_Ok in Hrun as (catalogs' & Hrest & Hrun).
    simplify_eq. simpl. f_equal. by apply IH.
Qed.

Section orchestrator_result.
Context `{Collaborators}.

Lemma mergeSources_roots sources :
  ∀ merged roots fr merged' roots' fr',
    mergeSources merged roots sources fr = (Ok (merged', roots'), fr') →
    length roots' = (length roots + length sources)%nat
    ∧ ∀ fn, fn ∈ sources → ∃ file, pdfOpen fn = Ok file.
Proof.
  induction sources as [|fn sources IH];
    intros merged roots fr merged' roots' fr' Hrun.
  - simpl in Hrun. unfold mret in Hrun. simplify_eq. split; [simpl; lia|].
    intros fn Hfn. by apply not_elem_of_nil in Hfn.
  - simpl in Hrun.
    apply mseq_Ok in Hrun as ([merged1 roots1] & fr1 & Hone & Hrun).
    apply IH in Hrun as [Hlen Hopen].
    unfold mergeSource in Hone.
    apply mseq_Ok in Hone as (file & fr2 & Hfile & Hone).
    apply mlift_Ok in Hfile as [Hfile ->].
    apply mseq_Ok in Hone as (h & fr3 & _ & Hone).
    apply mseq_Ok in Hone as ([] & fr4 & _ & Hone).
    apply mseq_Ok in Hone as ([[refs merged2] root] & fr5 & _ & Hone).
    apply mseq_Ok in Hone as ([] & fr6 & _ & Hone).
    apply mseq_Ok in Hone as (root' & fr7 & _ & Hone).
    unfold mret in Hone. simplify_eq. split.
    + rewrite Hlen, length_app. simpl. lia.
    + intros fn' [->|Hin]%elem_of_cons; [|by apply Hopen].
      destruct (pdfOpen fn); [eauto|done..].
Qed.

Lemma mergeBody_inv merged sources fr saved fr' :
  mergeBody merged sources fr = (Ok saved, fr') →
  ∃ merged1 roots fr1 catalogs merged2 pageTreeRef merged3 root,
    mergeSources merged [] sources fr = (Ok (merged1, roots), fr1)
    ∧ getCatalogs merged1 roots = Ok catalogs
    ∧ mergePageTrees merged1 catalogs = Ok (merged2, pageTreeRef)
    ∧ Add merged2 (Dictionary [("Type", Name "Catalog");
                               ("Pages", Ref pageTreeRef)])
      = Ok (merged3, root)
    ∧ saveErr (setRoot merged3 root) = None
    ∧ saved = setRoot merged3 root.
Proof.
  unfold mergeBody. intros Hrun.
  apply mseq_Ok in Hrun as ([merged1 roots] & fr1 & Hloop & Hrun).
  apply mseq_Ok in Hrun as (catalogs & fr2 & Hcat & Hrun).
  apply mlift_Ok in Hcat as [Hcat ->].
  apply mseq_Ok in Hrun as ([merged2 pageTreeRef] & fr3 & Hpt & Hrun).
  apply mlift_Ok in Hpt as [Hpt ->].
  apply mseq_Ok in Hrun as ([] & fr4 & _ & Hrun).
  apply mseq_Ok in Hrun as ([merged3 root] & fr5 & Hadd & Hrun).
  apply mlift_Ok in Hadd as [Hadd ->]. cbv zeta in Hrun.
  apply mseq_Ok in Hrun as ([] & fr6 & _ & Hrun).
  apply mseq_Ok in Hrun as ([] & fr7 & Hsave & Hrun).
  apply mlift_Ok in Hsave as [Hsave ->].
  apply mseq_Ok in Hrun as ([] & fr8 & _ & Hrun).
  unfold mret in Hrun. simplify_eq.
  exists merged1, roots, fr1, catalogs, merged2, pageTreeRef, merged3, root.
  split_and!; try done. by destruct (saveErr (setRoot merged3 root)).
Qed.
End orchestrator_result.

(** X4.  When [MergeFiles] returns nil, every source could be opened,
    and the saved document has as root a catalog whose [Pages] is a page
    tree with one kid per source, each kid having the page tree as its
    [Parent]. *)
Theorem MergeFiles_result `{Collaborators} dest sources saved :
  outcome (MergeFiles dest sources) = Ok saved →
  (∀ fn, fn ∈ sources → ∃ file, pdfOpen fn = Ok file)
  ∧ ∃ pages kids count,
      Get saved (Root saved)
      = Dictionary [("Type", Name "Catalog"); ("Pages", Ref pages)]
      ∧ Get saved pages
        = Dictionary [("Type", Name "Pages"); ("Kids", Array (Ref <$> kids));
                      ("Count", Integer count)]
      ∧ length kids = length sources
      ∧ Forall (λ r, field (Get saved r) "Parent" = Some (Ref pages)) kids.
Proof.
  unfold MergeFiles. destruct (pdfCreate dest) as [merged|e|msg]; [|done..].
  destruct (mergeBody merged sources (mkFrame [] [Created])) as [res fr] eqn:Hrun.
  simpl. intros ->.
  apply mergeBody_inv in Hrun
    as (merged1 & roots & fr1 & catalogs & merged2 & pages & merged3 & root
        & Hloop & Hcat & Hpt & Hadd & _ & ->).
  apply mergeSources_roots in Hloop as [Hlen Hopen].
  apply getCatalogs_length in Hcat.
  apply mergePageTrees_spec in Hpt
    as (kids & counts & Hkids & _ & _ & Hnin & [_ Hfr] & Hnew).
  apply Add_plain in Hadd as [-> ->]; [|done].
  pose proof (freshRef_fresh merged2) as Hfresh.
  split; [done|]. exists pages, kids, (wrapInt (sumZ counts)). split_and!.
  - unfold Get, setRoot. simpl. by rewrite lookup_insert_eq.
  - unfold Get, setRoot. simpl.
    rewrite lookup_insert_ne by congruence. by rewrite Hnew.
  - apply Forall2_length in Hkids. simpl in Hlen. lia.
  - apply Forall_forall. intros r Hin. specialize (Hfr r).
    rewrite decide_True in Hfr by done. destruct Hfr as (p & _ & Hr).
    simpl in Hr. rewrite lookup_delete_ne in Hr by congruence.
    unfold Get, setRoot. simpl.
    rewrite lookup_insert_ne by congruence. rewrite Hr. simpl.
    apply dictGet_dictSet_eq.
Qed.

(** * Properties of the tabular readers *)

Lemma ReadFull_inl r n b :
  dbcsv.ReadFull r n = inl b ↔
  (n ≤ length (dbcsv.content r))%nat ∧ b = take n (dbcsv.content r).
Proof.
  unfold dbcsv.ReadFull. case_decide.
  - split; [by intros [= <-]|by intros [_ ->]].
  - split; [|lia]. destruct (dbcsv.failure r); [done|].
    by destruct (dbcsv.content r).
Qed.


(** X6.  The signature of the content beats the file name: an OLE2
    header is [Xls], a PKZip header is [XlsX] and a leading double quote
    is [Csv], whatever the name and its extension are. *)
Theorem DetectReaderType_signature rest failure fileName :
  dbcsv.DetectReaderType
    (dbcsv.mkReader (Byte.xd0 :: Byte.xcf :: Byte.x11 :: Byte.xe0 :: rest)
                    failure) fileName = (dbcsv.Xls, None)
  ∧ dbcsv.DetectReaderType
      (dbcsv.mkReader (Byte.x50 :: Byte.x4b :: Byte.x03 :: Byte.x04 :: rest)
                      failure) fileName = (dbcsv.XlsX, None)
  ∧ ∀ b1 b2 b3,
      dbcsv.DetectReaderType
        (dbcsv.mkReader (Byte.x22 :: b1 :: b2 :: b3 :: rest) failure) fileName
      = (dbcsv.Csv, None).
Proof.
  split_and!; [done..|]. intros b1 b2 b3.
  unfold dbcsv.DetectReaderType, dbcsv.ReadFull. by simpl.
Qed.

Lemma DetectReaderType_inv (r : dbcsv.Reader) fileName t err :
  dbcsv.DetectReaderType r fileName = (t, err) →
  (err = None → t ≠ dbcsv.Unknown) ∧ (err ≠ None → t = dbcsv.Unknown).
Proof.
  unfold dbcsv.DetectReaderType.
  destruct (dbcsv.ReadFull r 4) as [b|e].
  - repeat case_decide; by intros [= <- <-].
  - by intros [= <- <-].
Qed.

(** X7.  [DetectReaderType] succeeds exactly on inputs of four bytes or
    more, and then the type is one of [Xls], [XlsX] and [Csv], never
    [Unknown]; when it fails the type is [Unknown]. *)
Theorem DetectReaderType_known (r : dbcsv.Reader) fileName t err :
  dbcsv.DetectReaderType r fileName = (t, err) →
  (err = None ↔ (4 ≤ length (dbcsv.content r))%nat)
  ∧ (err = None → t ≠ dbcsv.Unknown
                  ∧ (t = dbcsv.Xls ∨ t = dbcsv.XlsX ∨ t = dbcsv.Csv))
  ∧ (err ≠ None → t = dbcsv.Unknown).
Proof.
  unfold dbcsv.DetectReaderType.
  destruct (dbcsv.ReadFull r 4) as [b|e] eqn:Hread.
  - apply ReadFull_inl in Hread as [Hlen _].
    repeat case_decide; intros [= <- <-];
      (split_and!; [done|intros _; split; [done|eauto]|done]).
  - intros [= <- <-]. split_and!; [|done..].
    split; [done|]. intros Hlen.
    assert (Hok : dbcsv.ReadFull r 4 = inl (take 4 (dbcsv.content r)))
      by by apply ReadFull_inl.
    congruence.
Qed.

(** X8.  [Config.Type] detects once: after a call that returned a type
    without error, every later call returns that type without opening a
    file, whichever file it is asked about.  A call that fails caches
    nothing. *)
Theorem Type_cached `{dbcsv.World} cfg fileName cfg' t err :
  dbcsv.Type_ cfg fileName = (cfg', (t, err)) →
  (err = None →
   ∀ (W' : dbcsv.World) fileName',
     dbcsv.Type_ (H:=W') cfg' fileName' = (cfg', (t, None)))
  ∧ (err ≠ None → t = dbcsv.Unknown ∧ dbcsv.typ cfg' = dbcsv.Unknown).
Proof.
  unfold dbcsv.Type_ at 1. case_decide as Htyp.
  - intros [= <- <- <-]. split; [|done]. intros _ W' fileName'.
    unfold dbcsv.Type_. by rewrite decide_True.
  - destruct (dbcsv.osOpen fileName) as [fh|e].
    + destruct (dbcsv.DetectReaderType fh fileName) as [t0 err0] eqn:Hdet.
      intros [= <- <- <-].
      apply DetectReaderType_inv in Hdet as (Hok & Hfail). split.
      * intros ->. pose proof (Hok eq_refl) as Hne. intros W' fileName'.
        unfold dbcsv.Type_. by rewrite decide_True.
      * intros Herr. by rewrite (Hfail Herr).
    + by intros [= <- <- <-].
Qed.

Lemma parseColumns_ok fields :
  ∀ acc numbers,
    Forall2 (λ x i, dbcsv.Atoi x = (i, None)) fields numbers →
    dbcsv.parseColumns acc fields
    = (acc ++ ((λ i, wrapInt (i - 1)) <$> numbers), None).
Proof.
  induction fields as [|x fields IH]; intros acc numbers Hall.
  - apply Forall2_nil_inv_l in Hall as ->. simpl. by rewrite app_nil_r.
  - apply Forall2_cons_inv_l in Hall as (i & numbers' & Hx & Hrest & ->).
    simpl. rewrite Hx. rewrite (IH _ _ Hrest). by rewrite <- app_assoc.
Qed.

(** X9.  When every comma-separated field of [ColumnsString] is a
    number for [strconv.Atoi], [Columns] returns these numbers, each
    decreased by one (1-based to 0-based), in order, one per field, and
    stores them in the configuration. *)
Theorem Columns_numbers cfg numbers :
  dbcsv.ColumnsString cfg ≠ "" →
  dbcsv.columns cfg = None →
  Forall2 (λ x i, dbcsv.Atoi x = (i, None))
          (dbcsv.Split (dbcsv.ColumnsString cfg)) numbers →
  dbcsv.Columns cfg
  = (dbcsv.setColumns cfg (Some ((λ i, wrapInt (i - 1)) <$> numbers)),
     (Some ((λ i, wrapInt (i - 1)) <$> numbers), None))
  ∧ length numbers = length (dbcsv.Split (dbcsv.ColumnsString cfg)).
Proof.
  intros Hcs Hcols Hall. split; [|symmetry; by eapply Forall2_length].
  unfold dbcsv.Columns. rewrite decide_False by done. rewrite Hcols.
  by rewrite (parseColumns_ok _ [] numbers Hall).
Qed.

(** X10.  [Columns] reports an error once only: whatever a call
    returned, the next call on the resulting configuration returns the
    same columns with a nil error.  After a field that is no number, the
    columns before that field are served as if they were all. *)
Theorem Columns_again cfg cfg' cols err :
  dbcsv.Columns cfg = (cfg', (cols, err)) →
  dbcsv.Columns cfg' = (cfg', (cols, None)).
Proof.
  unfold dbcsv.Columns at 1. case_decide as Hcs.
  - intros [= <- <- <-]. unfold dbcsv.Columns. by rewrite decide_True.
  - destruct (dbcsv.columns cfg) as [c|] eqn:Hcols.
    + intros [= <- <- <-]. unfold dbcsv.Columns.
      rewrite decide_False by done. by rewrite Hcols.
    + destruct (dbcsv.parseColumns [] _) as [c e].
      intros [= <- <- <-]. unfold dbcsv.Columns. simpl.
      by rewrite decide_False.
Qed.

Lemma readRecords_all ctx fn recs :
  (∀ k, ctx k = None) → (∀ r, fn r = None) →
  ∀ skip n k,
    dbcsv.readRecords ctx fn None skip recs None n k
    = (dbcsv.Done tt,
       imap (λ i row, dbcsv.mkRow (n + Z.of_nat (Z.to_nat (skip - 1 - n))
                                   + Z.of_nat i) row)
            (drop (Z.to_nat (skip - 1 - n)) recs)).
Proof.
  intros Hctx Hfn. induction recs as [|row recs IH]; intros skip n k.
  - simpl. by rewrite drop_nil.
  - simpl. case_decide as Hskip.
    + rewrite IH.
      replace (Z.to_nat (skip - 1 - n)) with (S (Z.to_nat (skip - 1 - (n + 1))))
        by lia.
      rewrite skipn_cons. f_equal. apply imap_ext. intros i r _. f_equal. lia.
    + rewrite Hctx, Hfn, IH.
      replace (Z.to_nat (skip - 1 - n)) with O by lia.
      replace (Z.to_nat (skip - 1 - (n + 1))) with O by lia.
      rewrite !drop_0. rewrite imap_cons. f_equal. f_equal; [f_equal; lia|].
      apply imap_ext. intros i r _. simpl. f_equal. lia.
Qed.

(** X11.  With a context that is never done, a callback that never
    fails, no column selection and a reader that ends with [io.EOF],
    [ReadCSV] returns nil and hands to [fn] every record from the
    [skip]-th on (so it skips [skip - 1] records, none for [skip ≤ 1]),
    in order, each with its 0-based record number as [Line]. *)
Theorem ReadCSV_skip ctx fn recs skip :
  (∀ k, ctx k = None) → (∀ r, fn r = None) →
  dbcsv.ReadCSV ctx fn (dbcsv.mkCsvReader recs None) None skip
  = (dbcsv.Done tt,
     imap (λ i row, dbcsv.mkRow (Z.of_nat (Z.to_nat (skip - 1)) + Z.of_nat i) row)
          (drop (Z.to_nat (skip - 1)) recs)).
Proof.
  intros Hctx Hfn. unfold dbcsv.ReadCSV. rewrite Hctx. simpl.
  rewrite (readRecords_all ctx fn recs Hctx Hfn skip 0 1).
  replace (skip - 1 - 0) with (skip - 1) by lia. done.
Qed.





Lemma readRecords_stops ctx fn cols skip recs readErr :
  ∀ n k res rows,
    dbcsv.readRecords ctx fn cols skip recs readErr n k = (res, rows) →
    ∀ i r e, rows !! i = Some r → fn r = Some e →
             S i = length rows ∧ res = dbcsv.Fail e.
Proof.
  induction recs as [|row recs IH]; intros n k res rows Hrun i r e Hi He.
  - simpl in Hrun. destruct readErr as [[]|]; by simplify_eq.
  - simpl in Hrun. case_decide; [by eapply IH|].
    destruct (match cols with Some c => dbcsv.pick row c | None => dbcsv.Done row end)
      as [row'| |]; [|by simplify_eq..].
    destruct (ctx k); [by simplify_eq|].
    destruct (fn _) as [e'|] eqn:Hfn.
    + simplify_eq. destruct i as [|i]; simpl in Hi; [|done].
      simplify_eq. split; [done|]. congruence.
    + destruct (dbcsv.readRecords ctx fn cols skip recs readErr (n + 1) (S k))
        as [res' rows'] eqn:Hrest.
      simplify_eq. destruct i as [|i]; simpl in Hi; [congruence|].
      destruct (IH _ _ _ _ Hrest i r e Hi He) as [Hlen ->].
      split; [simpl; lia|done].
Qed.

(** X14.  [ReadCSV] stops at the first row that [fn] rejects: that row
    is the last one handed to [fn], and [fn]'s error is what [ReadCSV]
    returns. *)
Theorem ReadCSV_stops_at_error ctx fn cr cols skip res rows i r e :
  dbcsv.ReadCSV ctx fn cr cols skip = (res, rows) →
  rows !! i = Some r → fn r = Some e →
  S i = length rows ∧ res = dbcsv.Fail e.
Proof.
  unfold dbcsv.ReadCSV. destruct (ctx O); [by intros [= <- <-]|].
  intros Hrun. by eapply readRecords_stops.
Qed.

Lemma xlsxRows_all ctx fn sheetName rows :
  (∀ k, ctx k = None) → (∀ s r, fn s r = None) →
  ∀ skip i n k,
    (0 ≤ i)%Z →
    dbcsv.xlsxRows ctx fn sheetName skip rows i n k
    = (dbcsv.Done tt,
       imap (λ j row, (sheetName, dbcsv.mkRow (n + Z.of_nat j) row))
            (omap id (drop (Z.to_nat (skip - i)) rows))).
Proof.
  intros Hctx Hfn. induction rows as [|row rows IH]; intros skip i n k Hi.
  - simpl. by rewrite drop_nil.
  - simpl. case_decide as Hskip.
    + rewrite IH by lia.
      replace (Z.to_nat (skip - i)) with (S (Z.to_nat (skip - (i + 1)))) by lia.
      by rewrite skipn_cons.
    + replace (Z.to_nat (skip - i)) with O by lia. rewrite drop_0.
      destruct row as [row|].
      * rewrite Hctx, Hfn, IH by lia.
        replace (Z.to_nat (skip - (i + 1))) with O by lia. rewrite drop_0.
        simpl. f_equal. f_equal; [do 2 f_equal; lia|].
        apply imap_ext. intros j r _. simpl. do 2 f_equal. lia.
      * rewrite IH by lia.
        replace (Z.to_nat (skip - (i + 1))) with O by lia. by rewrite drop_0.
Qed.

(** X15.  With a context that is never done and a callback that never
    fails, [ReadXLSXFile] returns nil and hands to [fn] the rows of the
    sheet that are not nil, from row [skip] on, numbered 0, 1, 2, ...
    without gaps in [Line]; the [columns] argument changes nothing. *)
Theorem ReadXLSXFile_rows `{dbcsv.World} ctx fn filename sheetIndex cols skip
    xlFile :
  (∀ k, ctx k = None) → (∀ s r, fn s r = None) →
  dbcsv.excelizeOpenFile filename = inl xlFile →
  dbcsv.GetSheetName xlFile sheetIndex ≠ "" →
  dbcsv.ReadXLSXFile ctx fn filename sheetIndex cols skip
  = (dbcsv.Done tt,
     imap (λ j row, (dbcsv.GetSheetName xlFile sheetIndex,
                     dbcsv.mkRow (Z.of_nat j) row))
          (omap id (drop (Z.to_nat skip)
                         (dbcsv.GetRows xlFile
                            (dbcsv.GetSheetName xlFile sheetIndex))))).
Proof.
  intros Hctx Hfn Hopen Hname. unfold dbcsv.ReadXLSXFile.
  rewrite Hctx, Hopen. rewrite decide_False by done.
  rewrite (xlsxRows_all ctx fn _ _ Hctx Hfn skip 0 0 1) by lia.
  replace (skip - 0) with skip by lia. f_equal.
Qed.

Lemma mkNeed_wanted cols j :
  match dbcsv.mkNeed cols with
  | Some s => bool_decide (j ∉ s)
  | None => false
  end = false
  ↔ length (default [] cols) = O ∨ j ∈ default [] cols.
Proof.
  destruct cols as [[|c cols]|]; simpl; [naive_solver..| |naive_solver].
  rewrite bool_decide_eq_false. split.
  - intros Hin. right. apply dec_stable in Hin. set_solver.
  - intros [?|Hin]; [done|]. intros Hnot. apply Hnot. set_solver.
Qed.

Lemma bool_decide_ext_if {A} (P Q : Prop) `{!Decision P, !Decision Q} (x y : A) :
  (P ↔ Q) →
  (if bool_decide P then x else y) = (if bool_decide Q then x else y).
Proof. intros HPQ. by rewrite (bool_decide_ext P Q HPQ). Qed.

Lemma fillCols_spec cols row js :
  ∀ vals,
    Forall (λ j, (0 ≤ j < Z.of_nat (length vals))%Z) js →
    ∃ vals',
      dbcsv.fillCols (dbcsv.mkNeed cols) row vals js = dbcsv.Done vals'
      ∧ length vals' = length vals
      ∧ ∀ m, (m < length vals)%nat →
             vals' !! m
             = if bool_decide (Z.of_nat m ∈ js
                               ∧ (length (default [] cols) = O
                                  ∨ Z.of_nat m ∈ default [] cols))
               then Some (dbcsv.Col row (Z.of_nat m)) else vals !! m.
Proof.
  induction js as [|j js IH]; intros vals Hall.
  - exists vals. split_and!; [done..|]. intros m Hm.
    rewrite bool_decide_eq_false_2; [done|]. intros [Hin _].
    by apply not_elem_of_nil in Hin.
  - apply Forall_cons in Hall as [Hj Hall]. simpl.
    destruct (match dbcsv.mkNeed cols with
              | Some s => bool_decide (j ∉ s) | None => false end) eqn:Hneed.
    + destruct (IH vals Hall) as (vals' & -> & Hlen & Hget).
      exists vals'. split_and!; [done..|]. intros m Hm. rewrite (Hget m Hm).
      assert (Hnw : ¬ (length (default [] cols) = O ∨ j ∈ default [] cols)).
      { intros Hw. apply mkNeed_wanted in Hw. congruence. }
      apply bool_decide_ext_if. rewrite elem_of_cons.
      split; [naive_solver|]. intros [[->|?] ?]; naive_solver.
    + rewrite decide_True by done.
      destruct (IH (<[Z.to_nat j := dbcsv.Col row j]> vals)) as (vals' & -> & Hlen & Hget).
      { by rewrite length_insert. }
      rewrite length_insert in Hlen, Hget.
      exists vals'. split_and!; [done..|]. intros m Hm. rewrite (Hget m Hm).
      apply mkNeed_wanted in Hneed.
      destruct (decide (Z.of_nat m = j)) as [<-|Hne].
      * rewrite Nat2Z.id, list_lookup_insert_eq by done.
        rewrite (bool_decide_eq_true_2 (_ ∈ _ :: _ ∧ _)); [|split; [left|done]].
        by case_bool_decide.
      * rewrite list_lookup_insert_ne by lia.
        apply bool_decide_ext_if. rewrite elem_of_cons. naive_solver.
Qed.

Lemma xlsValues_Done cols row maxWidth :
  (0 ≤ dbcsv.FirstCol row)%Z →
  (dbcsv.xlsValues (dbcsv.mkNeed cols) row maxWidth).1
  = dbcsv.Done (xlsCell cols row <$> seqZ 0 (dbcsv.LastCol row + 1)).
Proof.
  intros Hfirst. unfold dbcsv.xlsValues. simpl length.
  case_decide as Hlast; simpl.
  - destruct (fillCols_spec cols row
                (seqZ (dbcsv.FirstCol row) (dbcsv.LastCol row - dbcsv.FirstCol row))
                (replicate (Z.to_nat (dbcsv.LastCol row + 1 - Z.of_nat 0)) ""))
      as (vals' & -> & Hlen & Hget).
    { apply Forall_forall. intros j Hj. apply elem_of_seqZ in Hj.
      rewrite length_replicate. lia. }
    f_equal. rewrite length_replicate in Hlen, Hget.
    apply list_eq. intros m. rewrite list_lookup_fmap.
    destruct (decide (m < Z.to_nat (dbcsv.LastCol row + 1 - Z.of_nat 0))%nat) as [Hm|Hm].
    + rewrite (Hget m Hm), lookup_seqZ_lt by lia. simpl.
      rewrite lookup_replicate_2 by done. unfold xlsCell.
      replace (0 + Z.of_nat m)%Z with (Z.of_nat m) by lia.
      case_bool_decide as H1; case_bool_decide as H2; try done; exfalso.
      * apply H2. destruct H1 as [Hin Hw]. apply elem_of_seqZ in Hin.
        split; [lia|done].
      * apply H1. destruct H2 as [Hin Hw]. split; [|done].
        apply elem_of_seqZ. lia.
    + rewrite lookup_seqZ_ge by lia. simpl.
      apply lookup_ge_None. lia.
  - assert (Hnil : ∀ m n, (n ≤ 0)%Z → seqZ m n = []).
    { intros m n Hn. unfold seqZ. by replace (Z.to_nat n) with O by lia. }
    rewrite !Hnil by lia. done.
Qed.

(** X16.  The values [ReadXLSFile] builds for a row whose first column
    is not negative: one entry for each index from 0 to [LastCol]
    included, holding the cell for the wanted columns from [FirstCol] to
    [LastCol] excluded and the empty string elsewhere.  Unwanted columns
    are blanked, not removed, and the entry at index [LastCol] is always
    the empty string. *)
Theorem xlsValues_cells cols row maxWidth :
  (0 ≤ dbcsv.FirstCol row)%Z →
  ∃ vals,
    (dbcsv.xlsValues (dbcsv.mkNeed cols) row maxWidth).1 = dbcsv.Done vals
    ∧ vals = xlsCell cols row <$> seqZ 0 (dbcsv.LastCol row + 1)
    ∧ length vals = Z.to_nat (dbcsv.LastCol row + 1)
    ∧ ((0 ≤ dbcsv.LastCol row)%Z →
       vals !! Z.to_nat (dbcsv.LastCol row) = Some "").
Proof.
  intros Hfirst. eexists. split; [by apply xlsValues_Done|].
  split_and!; [done|by rewrite length_fmap, length_seqZ|].
  intros Hlast. rewrite list_lookup_fmap, lookup_seqZ_lt by lia. simpl.
  unfold xlsCell. rewrite bool_decide_eq_false_2; [done|]. lia.
Qed.

Lemma xlsRows_all ctx fn sheet cols skip ns :
  (∀ k, ctx k = None) → (∀ s r, fn s r = None) →
  (∀ n row, dbcsv.SheetRow sheet n = Some row → (0 ≤ dbcsv.FirstCol row)%Z) →
  ∀ maxWidth k,
    dbcsv.xlsRows ctx fn sheet (dbcsv.mkNeed cols) skip ns maxWidth k
    = (dbcsv.Done tt,
       omap (λ n, if decide (n < skip)%Z then None
                  else (λ row, (dbcsv.Name sheet,
                                dbcsv.mkRow n (xlsCell cols row
                                               <$> seqZ 0 (dbcsv.LastCol row + 1))))
                       <$> dbcsv.SheetRow sheet n)
            ns).
Proof.
  intros Hctx Hfn Hfirst. induction ns as [|n ns IH]; intros maxWidth k; [done|].
  simpl. case_decide; [by rewrite IH|].
  destruct (dbcsv.SheetRow sheet n) as [row|] eqn:Hrow; simpl; [|by rewrite IH].
  rewrite Hctx.
  pose proof (xlsValues_Done cols row maxWidth (Hfirst _ _ Hrow)) as Hvals.
  destruct (dbcsv.xlsValues _ row maxWidth) as [res mw]. simpl in Hvals.
  subst res. by rewrite Hctx, Hfn, IH.
Qed.

(** X17.  With a context that is never done, a callback that never
    fails and rows whose first column is not negative, [ReadXLSFile]
    returns nil and hands to [fn] every row of the sheet that exists
    among the row numbers from [skip] up to but not including [MaxRow],
    in order; [Line] is the row number in the sheet, so it has gaps
    where rows are missing or skipped. *)
Theorem ReadXLSFile_rows `{dbcsv.World} ctx fn filename charset sheetIndex
    cols skip wb sheet :
  (∀ k, ctx k = None) → (∀ s r, fn s r = None) →
  dbcsv.xlsOpen filename charset = inl wb →
  dbcsv.GetSheet wb sheetIndex = Some sheet →
  (∀ n row, dbcsv.SheetRow sheet n = Some row → (0 ≤ dbcsv.FirstCol row)%Z) →
  dbcsv.ReadXLSFile ctx fn filename charset sheetIndex cols skip
  = (dbcsv.Done tt,
     omap (λ n, if decide (n < skip)%Z then None
                else (λ row, (dbcsv.Name sheet,
                              dbcsv.mkRow n (xlsCell cols row
                                             <$> seqZ 0 (dbcsv.LastCol row + 1))))
                     <$> dbcsv.SheetRow sheet n)
          (seqZ 0 (Z.of_N (dbcsv.MaxRow sheet)))).
Proof.
  intros Hctx Hfn Hopen Hsheet Hfirst. unfold dbcsv.ReadXLSFile.
  rewrite Hctx, Hopen, Hsheet. by apply xlsRows_all.
Qed.

(** X18.  [Config.Encoding] looks a character set up at most once: after
    a call that returned an encoding for a non-empty [Charset], every
    later call returns that encoding, without a lookup, even if
    [Charset] has been changed in between. *)
Theorem Encoding_cached `{dbcsv.World} cfg cfg' e :
  dbcsv.Charset cfg ≠ "" →
  dbcsv.Encoding cfg = (cfg', (Some e, None)) →
  ∀ (W' : dbcsv.World) charset',
    dbcsv.Encoding (H:=W')
      (dbcsv.mkConfig (dbcsv.typ cfg') (dbcsv.Sheet cfg') (dbcsv.Skip cfg')
         (dbcsv.Delim cfg') charset' (dbcsv.ColumnsString cfg')
         (dbcsv.encoding cfg') (dbcsv.columns cfg') (dbcsv.fileName cfg'))
    = (dbcsv.mkConfig (dbcsv.typ cfg') (dbcsv.Sheet cfg') (dbcsv.Skip cfg')
         (dbcsv.Delim cfg') charset' (dbcsv.ColumnsString cfg')
         (dbcsv.encoding cfg') (dbcsv.columns cfg') (dbcsv.fileName cfg'),
       (Some e, None)).
Proof.
  intros Hcs. unfold dbcsv.Encoding at 1.
  destruct (dbcsv.encoding cfg) as [e0|] eqn:Henc.
  - intros [= <- <-] W' charset'. unfold dbcsv.Encoding. simpl. by rewrite Henc.
  - rewrite decide_False by done.
    destruct (dbcsv.htmlindexGet (dbcsv.Charset cfg)) as [e1 err1].
    by intros [= <- -> ->] W' charset'.
Qed.

(** * The further properties at concrete inputs *)

(** X1 at the cyclic document [onePage]. *)
Lemma copy_result_is_translation_witness :
  ∃ refs' dst' o,
    copyReferencedObjects (H:=disk) 13 ∅ emptyFile onePage
      (Dictionary [("Root", Ref (ref 1))]) = Some (Ok (refs', dst', o))
    ∧ o = translate refs' (Dictionary [("Root", Ref (ref 1))])
    ∧ ∀ t, t ∈ refsOf (Dictionary [("Root", Ref (ref 1))]) →
           is_Some (refs' !! t).
Proof.
  eexists _, _, _. split; [vm_compute; reflexivity|].
  eapply (copy_result_is_translation (H:=disk) 13 ∅ emptyFile onePage).
  vm_compute. reflexivity.
Defined.

(** X2 at the cyclic document [onePage]. *)
Lemma copy_graph_witness :
  ∃ refs' dst' o,
    copyReferencedObjects (H:=disk) 13 ∅ emptyFile onePage (Ref (ref 1))
    = Some (Ok (refs', dst', o))
    ∧ ∀ t r, refs' !! t = Some r →
        objects emptyFile !! r = None
        ∧ is_Some (objects dst' !! r)
        ∧ Get dst' r = translate refs' (Get onePage t)
        ∧ (∀ t', t' ∈ refsOf (Get onePage t) → is_Some (refs' !! t'))
        ∧ (∀ t2, refs' !! t2 = Some r → t2 = t).
Proof.
  eexists _, _, _. split; [vm_compute; reflexivity|].
  eapply (copy_graph (H:=disk) 13 emptyFile onePage (Ref (ref 1))).
  vm_compute. reflexivity.
Defined.

(** X3 at the two page trees of [hugeCount]. *)
Lemma mergePageTrees_one_slot_witness :
  ∃ file' root,
    mergePageTrees (H:=disk) hugeCount
      [[("Pages", Ref (ref 1))]; [("Pages", Ref (ref 2))]] = Ok (file', root)
    ∧ root ∉ dom (objects hugeCount)
    ∧ dom (objects file') = {[root]} ∪ dom (objects hugeCount)
    ∧ Root file' = Root hugeCount.
Proof.
  eexists _, _. split; [vm_compute; reflexivity|].
  apply (mergePageTrees_one_slot (H:=disk) hugeCount
           [[("Pages", Ref (ref 1))]; [("Pages", Ref (ref 2))]]).
  vm_compute. reflexivity.
Defined.

(** X4 at two sources. *)
Lemma MergeFiles_result_witness :
  ∃ saved,
    outcome (MergeFiles (H:=disk) "out.pdf" ["a.pdf"; "b.pdf"]) = Ok saved
    ∧ (∀ fn, fn ∈ ["a.pdf"; "b.pdf"] → ∃ file, pdfOpen (Collaborators:=disk) fn = Ok file)
    ∧ ∃ pages kids count,
        Get saved (Root saved)
        = Dictionary [("Type", Name "Catalog"); ("Pages", Ref pages)]
        ∧ Get saved pages
          = Dictionary [("Type", Name "Pages"); ("Kids", Array (Ref <$> kids));
                        ("Count", Integer count)]
        ∧ length kids = 2%nat
        ∧ Forall (λ r, field (Get saved r) "Parent" = Some (Ref pages)) kids.
Proof.
  eexists. split; [vm_compute; reflexivity|].
  eapply (MergeFiles_result (H:=disk) "out.pdf" ["a.pdf"; "b.pdf"]).
  vm_compute. reflexivity.
Defined.


(** X7 at a plain file named like a spreadsheet. *)
Lemma DetectReaderType_known_witness :
  ((None : option dbcsv.Error) = None ↔ (4 ≤ 5)%nat)
  ∧ ((None : option dbcsv.Error) = None →
     dbcsv.Xls ≠ dbcsv.Unknown
     ∧ (dbcsv.Xls = dbcsv.Xls ∨ dbcsv.Xls = dbcsv.XlsX ∨ dbcsv.Xls = dbcsv.Csv))
  ∧ ((None : option dbcsv.Error) ≠ None → dbcsv.Xls = dbcsv.Unknown).
Proof.
  apply (DetectReaderType_known
           (dbcsv.mkReader [Byte.x61; Byte.x2c; Byte.x62; Byte.x2c; Byte.x63] None)
           "table.xls" dbcsv.Xls None).
  vm_compute. reflexivity.
Defined.

(** X8: once [data.bin] was detected, a missing file has that type. *)
Lemma Type_cached_witness :
  ((None : option dbcsv.Error) = None →
   ∀ (W' : dbcsv.World) fileName',
     dbcsv.Type_ (H:=W') (dbcsv.setTyp defaults dbcsv.XlsX) fileName'
     = (dbcsv.setTyp defaults dbcsv.XlsX, (dbcsv.XlsX, None)))
  ∧ ((None : option dbcsv.Error) ≠ None →
     dbcsv.XlsX = dbcsv.Unknown
     ∧ dbcsv.typ (dbcsv.setTyp defaults dbcsv.XlsX) = dbcsv.Unknown).
Proof.
  apply (Type_cached (H:=office) defaults "data.bin").
  vm_compute. reflexivity.
Defined.

(** X9 at the columns 1, 2 and 3. *)
Lemma Columns_numbers_witness :
  dbcsv.Columns (withColumns "1,2,3")
  = (dbcsv.setColumns (withColumns "1,2,3")
       (Some ((λ i, wrapInt (i - 1)) <$> [1; 2; 3])),
     (Some ((λ i, wrapInt (i - 1)) <$> [1; 2; 3]), None))
  ∧ length [1; 2; 3] = length (dbcsv.Split (dbcsv.ColumnsString (withColumns "1,2,3"))).
Proof.
  apply (Columns_numbers (withColumns "1,2,3") [1; 2; 3]).
  - vm_compute. discriminate.
  - reflexivity.
  - vm_compute. repeat constructor.
Defined.

(** X10 at a column list with a field that is no number. *)
Lemma Columns_again_witness :
  dbcsv.Columns (withColumns "1,2,x,4")
  = (dbcsv.setColumns (withColumns "1,2,x,4") (Some [0; 1]),
     (Some [0; 1], Some (dbcsv.Wrap (dbcsv.ErrSyntax "x") "x")))
  ∧ dbcsv.Columns (dbcsv.setColumns (withColumns "1,2,x,4") (Some [0; 1]))
    = (dbcsv.setColumns (withColumns "1,2,x,4") (Some [0; 1]),
       (Some [0; 1], None)).
Proof.
  split; [vm_compute; reflexivity|].
  apply (Columns_again (withColumns "1,2,x,4") _ (Some [0; 1])
           (Some (dbcsv.Wrap (dbcsv.ErrSyntax "x") "x"))).
  vm_compute. reflexivity.
Defined.

(** X11 at three records and [skip = 2]. *)
Lemma ReadCSV_skip_witness :
  dbcsv.ReadCSV (λ _, None) (λ _, None)
    (dbcsv.mkCsvReader [["id"; "sum"]; ["1"; "7"]; ["2"; "9"]] None) None 2
  = (dbcsv.Done tt,
     imap (λ i row, dbcsv.mkRow (Z.of_nat (Z.to_nat (2 - 1)) + Z.of_nat i) row)
          (drop (Z.to_nat (2 - 1)) [["id"; "sum"]; ["1"; "7"]; ["2"; "9"]])).
Proof.
  apply (ReadCSV_skip (λ _, None) (λ _, None)
           [["id"; "sum"]; ["1"; "7"]; ["2"; "9"]] 2).
  - intros k. reflexivity.
  - intros r. reflexivity.
Defined.



(** X14 with a callback that rejects the second record. *)
Lemma ReadCSV_stops_at_error_witness :
  (2 = length [dbcsv.mkRow 0 ["a"]; dbcsv.mkRow 1 ["b"]])%nat
  ∧ (dbcsv.Fail (dbcsv.External "bad row") : dbcsv.outcome unit)
    = dbcsv.Fail (dbcsv.External "bad row").
Proof.
  apply (ReadCSV_stops_at_error (λ _, None)
           (λ r, if decide (dbcsv.Line r = 1)
                 then Some (dbcsv.External "bad row") else None)
           (dbcsv.mkCsvReader [["a"]; ["b"]; ["c"]] None) None 0
           (dbcsv.Fail (dbcsv.External "bad row"))
           [dbcsv.mkRow 0 ["a"]; dbcsv.mkRow 1 ["b"]] 1 (dbcsv.mkRow 1 ["b"])
           (dbcsv.External "bad row")).
  - vm_compute. reflexivity.
  - reflexivity.
  - reflexivity.
Defined.

(** X15 at the sheet of [book.xlsx], which has a nil row. *)
Lemma ReadXLSXFile_rows_witness :
  dbcsv.ReadXLSXFile (H:=office) (λ _, None) (λ _ _, None) "book.xlsx" 1
    (Some [5]) 0
  = (dbcsv.Done tt,
     [("Sheet1", dbcsv.mkRow 0 ["id"; "sum"]);
      ("Sheet1", dbcsv.mkRow 1 ["1"; "7"])]).
Proof.
  set (xlFile := dbcsv.mkXlsxFile
                   (λ i, if decide (i = 1) then "Sheet1" else "")
                   (λ name, if decide (name = "Sheet1")
                            then [Some ["id"; "sum"]; None; Some ["1"; "7"]]
                            else [])).
  apply (ReadXLSXFile_rows (H:=office) (λ _, None) (λ _ _, None) "book.xlsx" 1
           (Some [5]) 0 xlFile).
  - intros k. reflexivity.
  - intros s r. reflexivity.
  - reflexivity.
  - vm_compute. discriminate.
Defined.

(** X16 at a row with cells in columns 1 and 2. *)
Lemma xlsValues_cells_witness :
  ∃ vals,
    (dbcsv.xlsValues (dbcsv.mkNeed None)
       (dbcsv.mkXlsRow 1 3 (λ j, if decide (j = 1) then "7" else "9")) 0).1
    = dbcsv.Done vals
    ∧ vals = xlsCell None
               (dbcsv.mkXlsRow 1 3 (λ j, if decide (j = 1) then "7" else "9"))
             <$> seqZ 0 (3 + 1)
    ∧ length vals = Z.to_nat (3 + 1)
    ∧ ((0 ≤ 3)%Z → vals !! Z.to_nat 3 = Some "").
Proof.
  apply (xlsValues_cells None
           (dbcsv.mkXlsRow 1 3 (λ j, if decide (j = 1) then "7" else "9")) 0).
  simpl. lia.
Defined.

(** X17 at the sheet [ledger], whose row 1 is missing. *)
Lemma ReadXLSFile_rows_witness :
  dbcsv.ReadXLSFile (H:=office) (λ _, None) (λ _ _, None) "book.xls" "" 0
    None 0
  = (dbcsv.Done tt,
     omap (λ n, if decide (n < 0)%Z then None
                else (λ row, (dbcsv.Name ledger,
                              dbcsv.mkRow n (xlsCell None row
                                             <$> seqZ 0 (dbcsv.LastCol row + 1))))
                     <$> dbcsv.SheetRow ledger n)
          (seqZ 0 (Z.of_N (dbcsv.MaxRow ledger)))).
Proof.
  apply (ReadXLSFile_rows (H:=office) (λ _, None) (λ _ _, None) "book.xls" ""
           0 None 0
           (dbcsv.mkWorkBook (λ i, if decide (i = 0) then Some ledger else None))
           ledger).
  - intros k. reflexivity.
  - intros s r. reflexivity.
  - reflexivity.
  - reflexivity.
  - intros n row. unfold ledger. simpl.
    repeat case_decide; intros [= <-]; simpl; lia.
Defined.

(** The rows of [ledger] as [fn] receives them: lines 0 and 2, the last
    value of each row empty. *)
Example ReadXLSFile_ledger :
  dbcsv.ReadXLSFile (H:=office) (λ _, None) (λ _ _, None) "book.xls" "" 0
    None 0
  = (dbcsv.Done tt,
     [("ledger", dbcsv.mkRow 0 ["id"; "sum"; ""]);
      ("ledger", dbcsv.mkRow 2 [""; "7"; "9"; ""])]).
Proof. vm_compute. reflexivity. Qed.

(** X18 at the character set [latin2]. *)
Lemma Encoding_cached_witness :
  dbcsv.Encoding (H:=office)
    (dbcsv.mkConfig dbcsv.Unknown 0 0 "" "latin2" "" None None "")
  = (dbcsv.mkConfig dbcsv.Unknown 0 0 "" "latin2" "" (Some "iso-8859-2")
                    None "",
     (Some "iso-8859-2", None))
  ∧ ∀ (W' : dbcsv.World) charset',
      dbcsv.Encoding (H:=W')
        (dbcsv.mkConfig dbcsv.Unknown 0 0 "" charset' "" (Some "iso-8859-2")
                        None "")
      = (dbcsv.mkConfig dbcsv.Unknown 0 0 "" charset' "" (Some "iso-8859-2")
                        None "",
         (Some "iso-8859-2", None)).
Proof.
  split; [vm_compute; reflexivity|].
  apply (Encoding_cached (H:=office)
           (dbcsv.mkConfig dbcsv.Unknown 0 0 "" "latin2" "" None None "")
           (dbcsv.mkConfig dbcsv.Unknown 0 0 "" "latin2" "" (Some "iso-8859-2")
                           None "")
           "iso-8859-2").
  - vm_compute. discriminate.
  - vm_compute. reflexivity.
Defined.
